(** * Solar system orrery: a model of [453-skeleton/main.cpp]

    The C++ program animates a sun, an earth and a moon.  Its [float] and
    [double] values are modelled bit-exactly as IEEE 754 binary32 and binary64
    numbers ([SpecFloat] of the Standard Library, round to nearest even); the
    functions of glm and of the C math library, whose sources are not part of
    the repository, are the fields of the interface [MathLib]. *)

From Stdlib Require Import ZArith Bool Lia.
From Stdlib Require Import Floats.SpecFloat.
From stdpp Require Import base option list strings.

Local Open Scope Z_scope.

(** ** Scalars *)

(** The C++ type [float]. *)
Module F32.
Definition prec : Z := 24.
Definition emax : Z := 128.
Definition t : Type := spec_float.

Definition add : t -> t -> t := SFadd prec emax.
Definition sub : t -> t -> t := SFsub prec emax.
Definition mul : t -> t -> t := SFmul prec emax.
Definition div : t -> t -> t := SFdiv prec emax.
Definition opp : t -> t := SFopp.
Definition leb : t -> t -> bool := SFleb.
Definition ltb : t -> t -> bool := SFltb.

(** Conversion of an [int] and of a finite value of a wider format. *)
Definition of_Z (z : Z) : t := binary_normalize prec emax z 0 false.
Definition round (x : spec_float) : t := SFldexp prec emax x 0.
(** The float nearest to [m * 2 ^ e]. *)
Definition dyadic (m e : Z) : t := binary_normalize prec emax m e false.

Definition zero : t := S754_zero false.

(** [std::max(a, b)] is [(a < b) ? b : a]. *)
Definition max (a b : t) : t := if ltb a b then b else a.
End F32.

(** The C++ type [double]. *)
Module F64.
Definition prec : Z := 53.
Definition emax : Z := 1024.
Definition t : Type := spec_float.

Definition sub : t -> t -> t := SFsub prec emax.
Definition mul : t -> t -> t := SFmul prec emax.
Definition div : t -> t -> t := SFdiv prec emax.
Definition of_Z (z : Z) : t := binary_normalize prec emax z 0 false.
(** The double nearest to [m * 2 ^ e]. *)
Definition dyadic (m e : Z) : t := binary_normalize prec emax m e false.
End F64.

(** A float that is zero, positive and finite, or plus infinity. *)
Definition nonneg_float (x : spec_float) : Prop :=
  match x with
  | S754_zero _ => True
  | S754_infinity s | S754_finite s _ _ => s = false
  | S754_nan => False
  end.

Abbreviation float := F32.t.
Abbreviation double := F64.t.

Declare Scope f32_scope.
Delimit Scope f32_scope with f32.
Infix "+" := F32.add : f32_scope.
Infix "-" := F32.sub : f32_scope.
Infix "*" := F32.mul : f32_scope.
Infix "/" := F32.div : f32_scope.
Notation "- x" := (F32.opp x) : f32_scope.
Infix "<=?" := F32.leb : f32_scope.

(** ** Vectors *)

Record vec2 : Type := mkVec2 { v2x : float; v2y : float }.
Record vec3 : Type := mkVec3 { v3x : float; v3y : float; v3z : float }.
Record vec4 : Type := mkVec4 { v4x : float; v4y : float; v4z : float; v4w : float }.

Definition vec3_add (a b : vec3) : vec3 :=
  mkVec3 (v3x a + v3x b)%f32 (v3y a + v3y b)%f32 (v3z a + v3z b)%f32.
Definition vec3_sub (a b : vec3) : vec3 :=
  mkVec3 (v3x a - v3x b)%f32 (v3y a - v3y b)%f32 (v3z a - v3z b)%f32.
Definition vec3_scale (k : float) (a : vec3) : vec3 :=
  mkVec3 (k * v3x a)%f32 (k * v3y a)%f32 (k * v3z a)%f32.
(** [vec3(vec4)] drops the last component; [vec3(0.0f)] is the zero vector. *)
Definition vec3_of_vec4 (a : vec4) : vec3 := mkVec3 (v4x a) (v4y a) (v4z a).
Definition vec3_zero : vec3 := mkVec3 F32.zero F32.zero F32.zero.

(** ** The external mathematics *)

(** What the program takes from glm and [<cmath>]: 4x4 matrices with the
    identity [mat4(1.0f)], [rotate], [translate], the product of a matrix and
    a [vec4], [normalize], [sin], [cos], and [radians] at [double] and at
    [float]. *)
Class MathLib : Type := {
  mat4 : Type;
  mat4_identity : mat4;
  rotate : mat4 -> float -> vec3 -> mat4;
  translate : mat4 -> vec3 -> mat4;
  mat4_mul_vec4 : mat4 -> vec4 -> vec4;
  normalize : vec3 -> vec3;
  sin : float -> float;
  cos : float -> float;
  radians : double -> double;
  radiansf : float -> float
}.

(** ** Global constants and variables of [main.cpp] *)

(** [3.14159265359f], bits [0x40490FDB]. *)
Definition PI : float := S754_finite false 13176795 (-22).
(** The literal [0.1f]: the decimal, correctly rounded. *)
Definition f_0_1 : float := (F32.of_Z 1 / F32.of_Z 10)%f32.
Definition uvInc : float := f_0_1.

Definition xAxisOfRotation : vec3 := mkVec3 (F32.of_Z 1) F32.zero F32.zero.
Definition yAxisOfRotation : vec3 := mkVec3 F32.zero (F32.of_Z 1) F32.zero.
Definition xAxisMatrix : vec4 := mkVec4 (F32.of_Z 1) F32.zero F32.zero F32.zero.
Definition yAxisMatrix : vec4 := mkVec4 F32.zero (F32.of_Z 1) F32.zero F32.zero.

(** [PI / 2] and [2 * PI]: the [int] operand is converted to [float]. *)
Definition half_PI : float := (PI / F32.of_Z 2)%f32.
Definition two_PI : float := (F32.of_Z 2 * PI)%f32.

(** ** Geometry buffers *)

(** [CPU_Geometry]: the three vectors the program fills. *)
Record CPU_Geometry : Type := mkCPU {
  verts : list vec3;
  texCoords : list vec2;
  normals : list vec3
}.

(** [GPU_Geometry]: the contents last uploaded by [setVerts], [setTexCoords]
    and [setNormals]. *)
Record GPU_Geometry : Type := mkGPU {
  vertBuffer : list vec3;
  texCoordBuffer : list vec2;
  normalBuffer : list vec3
}.

(** ** The translation of the source text *)

(** Line 232 of [main.cpp], the comment before the first [drawPoint] call of
    [generateSphere], ends in a backslash followed by a space.  A translator
    that splices such a line with the next (ISO C++23, GCC, Clang) makes
    [drawPoint(u, v);] on line 233 part of the comment; one that splices only
    a backslash immediately before the new-line (MSVC before C++23, the
    compiler the README names) keeps the call.  The program is modelled under
    either translation. *)
Class Translation : Type := { splices_backslash_space : bool }.

Definition spliced : Translation := {| splices_backslash_space := true |}.
Definition unspliced : Translation := {| splices_backslash_space := false |}.

Section Orrery.
Context `{L : MathLib} `{T : Translation}.

(** ** The class [Planet] *)

(** A [Planet*] is an index into the table of constructed planets; [None] is
    [nullptr]. *)
Record Planet : Type := mkPlanet {
  orbitalInclination : float;
  axialTilt : float;
  distanceFromParent : float;
  orbitalSpeed : float;
  rotationSpeed : float;
  radius : float;
  orbitalAngle : float;
  axialAngle : float;
  parent : option nat;
  position : vec3;
  rotationAxis : vec3;
  cpuGeom : CPU_Geometry;
  gpuGeom : GPU_Geometry;
  texture : string;
  modelMatrix : mat4;
  translationMatrix : mat4;
  axialRotationMatrix : mat4;
  negAxialRotationMatrix : mat4
}.

Definition set_orbitalAngle (x : float) (p : Planet) : Planet :=
  {| orbitalInclination := orbitalInclination p; axialTilt := axialTilt p;
     distanceFromParent := distanceFromParent p; orbitalSpeed := orbitalSpeed p;
     rotationSpeed := rotationSpeed p; radius := radius p; orbitalAngle := x;
     axialAngle := axialAngle p; parent := parent p; position := position p;
     rotationAxis := rotationAxis p; cpuGeom := cpuGeom p; gpuGeom := gpuGeom p;
     texture := texture p; modelMatrix := modelMatrix p;
     translationMatrix := translationMatrix p;
     axialRotationMatrix := axialRotationMatrix p;
     negAxialRotationMatrix := negAxialRotationMatrix p |}.
Definition set_axialAngle (x : float) (p : Planet) : Planet :=
  {| orbitalInclination := orbitalInclination p; axialTilt := axialTilt p;
     distanceFromParent := distanceFromParent p; orbitalSpeed := orbitalSpeed p;
     rotationSpeed := rotationSpeed p; radius := radius p;
     orbitalAngle := orbitalAngle p; axialAngle := x; parent := parent p;
     position := position p; rotationAxis := rotationAxis p; cpuGeom := cpuGeom p;
     gpuGeom := gpuGeom p; texture := texture p; modelMatrix := modelMatrix p;
     translationMatrix := translationMatrix p;
     axialRotationMatrix := axialRotationMatrix p;
     negAxialRotationMatrix := negAxialRotationMatrix p |}.
Definition set_position (x : vec3) (p : Planet) : Planet :=
  {| orbitalInclination := orbitalInclination p; axialTilt := axialTilt p;
     distanceFromParent := distanceFromParent p; orbitalSpeed := orbitalSpeed p;
     rotationSpeed := rotationSpeed p; radius := radius p;
     orbitalAngle := orbitalAngle p; axialAngle := axialAngle p; parent := parent p;
     position := x; rotationAxis := rotationAxis p; cpuGeom := cpuGeom p;
     gpuGeom := gpuGeom p; texture := texture p; modelMatrix := modelMatrix p;
     translationMatrix := translationMatrix p;
     axialRotationMatrix := axialRotationMatrix p;
     negAxialRotationMatrix := negAxialRotationMatrix p |}.
Definition set_rotationAxis (x : vec3) (p : Planet) : Planet :=
  {| orbitalInclination := orbitalInclination p; axialTilt := axialTilt p;
     distanceFromParent := distanceFromParent p; orbitalSpeed := orbitalSpeed p;
     rotationSpeed := rotationSpeed p; radius := radius p;
     orbitalAngle := orbitalAngle p; axialAngle := axialAngle p; parent := parent p;
     position := position p; rotationAxis := x; cpuGeom := cpuGeom p;
     gpuGeom := gpuGeom p; texture := texture p; modelMatrix := modelMatrix p;
     translationMatrix := translationMatrix p;
     axialRotationMatrix := axialRotationMatrix p;
     negAxialRotationMatrix := negAxialRotationMatrix p |}.
Definition set_cpuGeom (x : CPU_Geometry) (p : Planet) : Planet :=
  {| orbitalInclination := orbitalInclination p; axialTilt := axialTilt p;
     distanceFromParent := distanceFromParent p; orbitalSpeed := orbitalSpeed p;
     rotationSpeed := rotationSpeed p; radius := radius p;
     orbitalAngle := orbitalAngle p; axialAngle := axialAngle p; parent := parent p;
     position := position p; rotationAxis := rotationAxis p; cpuGeom := x;
     gpuGeom := gpuGeom p; texture := texture p; modelMatrix := modelMatrix p;
     translationMatrix := translationMatrix p;
     axialRotationMatrix := axialRotationMatrix p;
     negAxialRotationMatrix := negAxialRotationMatrix p |}.
Definition set_gpuGeom (x : GPU_Geometry) (p : Planet) : Planet :=
  {| orbitalInclination := orbitalInclination p; axialTilt := axialTilt p;
     distanceFromParent := distanceFromParent p; orbitalSpeed := orbitalSpeed p;
     rotationSpeed := rotationSpeed p; radius := radius p;
     orbitalAngle := orbitalAngle p; axialAngle := axialAngle p; parent := parent p;
     position := position p; rotationAxis := rotationAxis p; cpuGeom := cpuGeom p;
     gpuGeom := x; texture := texture p; modelMatrix := modelMatrix p;
     translationMatrix := translationMatrix p;
     axialRotationMatrix := axialRotationMatrix p;
     negAxialRotationMatrix := negAxialRotationMatrix p |}.
Definition set_translationMatrix (x : mat4) (p : Planet) : Planet :=
  {| orbitalInclination := orbitalInclination p; axialTilt := axialTilt p;
     distanceFromParent := distanceFromParent p; orbitalSpeed := orbitalSpeed p;
     rotationSpeed := rotationSpeed p; radius := radius p;
     orbitalAngle := orbitalAngle p; axialAngle := axialAngle p; parent := parent p;
     position := position p; rotationAxis := rotationAxis p; cpuGeom := cpuGeom p;
     gpuGeom := gpuGeom p; texture := texture p; modelMatrix := modelMatrix p;
     translationMatrix := x; axialRotationMatrix := axialRotationMatrix p;
     negAxialRotationMatrix := negAxialRotationMatrix p |}.
Definition set_axialRotationMatrix (x : mat4) (p : Planet) : Planet :=
  {| orbitalInclination := orbitalInclination p; axialTilt := axialTilt p;
     distanceFromParent := distanceFromParent p; orbitalSpeed := orbitalSpeed p;
     rotationSpeed := rotationSpeed p; radius := radius p;
     orbitalAngle := orbitalAngle p; axialAngle := axialAngle p; parent := parent p;
     position := position p; rotationAxis := rotationAxis p; cpuGeom := cpuGeom p;
     gpuGeom := gpuGeom p; texture := texture p; modelMatrix := modelMatrix p;
     translationMatrix := translationMatrix p; axialRotationMatrix := x;
     negAxialRotationMatrix := negAxialRotationMatrix p |}.
Definition set_negAxialRotationMatrix (x : mat4) (p : Planet) : Planet :=
  {| orbitalInclination := orbitalInclination p; axialTilt := axialTilt p;
     distanceFromParent := distanceFromParent p; orbitalSpeed := orbitalSpeed p;
     rotationSpeed := rotationSpeed p; radius := radius p;
     orbitalAngle := orbitalAngle p; axialAngle := axialAngle p; parent := parent p;
     position := position p; rotationAxis := rotationAxis p; cpuGeom := cpuGeom p;
     gpuGeom := gpuGeom p; texture := texture p; modelMatrix := modelMatrix p;
     translationMatrix := translationMatrix p;
     axialRotationMatrix := axialRotationMatrix p; negAxialRotationMatrix := x |}.

(** The planets and the global variables of the program. *)
Record World : Type := mkWorld {
  bodies : list Planet;
  animationSpeed : float;
  isAnimating : bool;
  restartAnimation : bool;
  lastUpdateTime : double;
  currUpdateTime : double
}.

Definition set_bodies (x : list Planet) (w : World) : World :=
  {| bodies := x; animationSpeed := animationSpeed w; isAnimating := isAnimating w;
     restartAnimation := restartAnimation w; lastUpdateTime := lastUpdateTime w;
     currUpdateTime := currUpdateTime w |}.
Definition set_animationSpeed (x : float) (w : World) : World :=
  {| bodies := bodies w; animationSpeed := x; isAnimating := isAnimating w;
     restartAnimation := restartAnimation w; lastUpdateTime := lastUpdateTime w;
     currUpdateTime := currUpdateTime w |}.
Definition set_isAnimating (x : bool) (w : World) : World :=
  {| bodies := bodies w; animationSpeed := animationSpeed w; isAnimating := x;
     restartAnimation := restartAnimation w; lastUpdateTime := lastUpdateTime w;
     currUpdateTime := currUpdateTime w |}.
Definition set_restartAnimation (x : bool) (w : World) : World :=
  {| bodies := bodies w; animationSpeed := animationSpeed w; isAnimating := isAnimating w;
     restartAnimation := x; lastUpdateTime := lastUpdateTime w;
     currUpdateTime := currUpdateTime w |}.
Definition set_lastUpdateTime (x : double) (w : World) : World :=
  {| bodies := bodies w; animationSpeed := animationSpeed w; isAnimating := isAnimating w;
     restartAnimation := restartAnimation w; lastUpdateTime := x;
     currUpdateTime := currUpdateTime w |}.
Definition set_currUpdateTime (x : double) (w : World) : World :=
  {| bodies := bodies w; animationSpeed := animationSpeed w; isAnimating := isAnimating w;
     restartAnimation := restartAnimation w; lastUpdateTime := lastUpdateTime w;
     currUpdateTime := x |}.

(** *** Private methods *)

Definition getElapsedTime (w : World) : float :=
  F32.round (F64.sub (currUpdateTime w) (lastUpdateTime w)).

Definition getPosition (p : Planet) : vec3 := position p.

Definition updateGPUGeom (p : Planet) : Planet :=
  set_gpuGeom
    (mkGPU (verts (cpuGeom p)) (texCoords (cpuGeom p)) (normals (cpuGeom p))) p.

Definition getNormal (p : Planet) (vertex : vec3) : vec3 :=
  normalize (vec3_sub vertex (position p)).

Definition updateNormals (p : Planet) : Planet :=
  updateGPUGeom
    (set_cpuGeom
       (mkCPU (verts (cpuGeom p)) (texCoords (cpuGeom p))
          (map (getNormal p) (verts (cpuGeom p)))) p).

Definition updateTranslationMatrix (p : Planet) : Planet :=
  match parent p with
  | None => set_translationMatrix (modelMatrix p) p
  | Some _ => set_translationMatrix (translate (modelMatrix p) (position p)) p
  end.

(** [parent->getPosition()] reads the table; a pointer to no planet has no
    result. *)
Definition updateLocation (w : World) (p : Planet) : option Planet :=
  match parent p with
  | None => Some (set_position vec3_zero p)
  | Some j =>
      q ← bodies w !! j;
      let relativePositionFromParent :=
        vec3_scale (distanceFromParent p)
          (mkVec3 (sin (orbitalAngle p))
             (sin (orbitalAngle p) * sin (orbitalInclination p))%f32
             (cos (orbitalAngle p))) in
      Some (set_position (vec3_add (getPosition q) relativePositionFromParent) p)
  end.

Definition updateAxialRotation (w : World) (p : Planet) : Planet :=
  let p1 :=
    set_axialAngle
      (axialAngle p + rotationSpeed p * animationSpeed w * getElapsedTime w)%f32 p in
  let p2 :=
    set_axialRotationMatrix
      (rotate (modelMatrix p1) (axialAngle p1) (rotationAxis p1)) p1 in
  set_negAxialRotationMatrix
    (rotate (modelMatrix p2) (- axialAngle p2)%f32 (rotationAxis p2)) p2.

Definition updateOrbitalRotation (w : World) (p : Planet) : option Planet :=
  let p1 :=
    set_orbitalAngle
      (orbitalAngle p + orbitalSpeed p * animationSpeed w * getElapsedTime w)%f32 p in
  p2 ← updateLocation w p1;
  Some (updateTranslationMatrix (updateNormals p2)).

Definition getVertexCoord (p : Planet) (phi theta : float) : vec3 :=
  vec3_scale (radius p)
    (mkVec3 (sin phi * cos theta)%f32 (sin phi * sin theta)%f32 (cos phi)).

Definition getTextureCoord (phi theta : float) : vec2 :=
  mkVec2 (theta / two_PI)%f32 (phi / PI)%f32.

Definition drawPoint (phi theta : float) (p : Planet) : Planet :=
  set_cpuGeom
    (mkCPU (verts (cpuGeom p) ++ [getVertexCoord p phi theta])
       (texCoords (cpuGeom p) ++ [getTextureCoord phi theta])
       (normals (cpuGeom p))) p.

(** *** [generateSphere] *)

(** The body of the inner loop: the two triangles of the cell at [(u, v)];
    the first call is line 233, which is comment text when line 232 is
    spliced. *)
Definition drawCell (inc u v : float) (p : Planet) : Planet :=
  let p := if splices_backslash_space then p else drawPoint u v p in
  let p := drawPoint (u + inc)%f32 v p in
  let p := drawPoint u (v + inc)%f32 p in
  let p := drawPoint (u + inc)%f32 v p in
  let p := drawPoint (u + inc)%f32 (v + inc)%f32 p in
  drawPoint u (v + inc)%f32 p.

(** [for (float v = ...; v <= 2 * PI; v += inc)], with a bound on the number
    of iterations: [None] when the bound is reached. *)
Fixpoint sphere_loop_v (fuel : nat) (inc u v : float) (p : Planet) : option Planet :=
  if (v <=? two_PI)%f32 then
    match fuel with
    | O => None
    | S n => sphere_loop_v n inc u (v + inc)%f32 (drawCell inc u v p)
    end
  else Some p.

(** [for (float u = ...; u <= PI; u += inc)]; every inner loop gets
    [fuel_v] iterations. *)
Fixpoint sphere_loop_u (fuel fuel_v : nat) (inc u : float) (p : Planet) : option Planet :=
  if (u <=? PI)%f32 then
    match fuel with
    | O => None
    | S n =>
        p' ← sphere_loop_v fuel_v inc u F32.zero p;
        sphere_loop_u n fuel_v inc (u + inc)%f32 p'
    end
  else Some p.

(** [generateSphere] with the step as an argument. *)
Definition generateSphereWith (inc : float) (fuel : nat) (p : Planet) : option Planet :=
  let p0 := set_cpuGeom (mkCPU [] [] (normals (cpuGeom p))) p in
  p1 ← sphere_loop_u fuel fuel inc F32.zero p0;
  Some (updateGPUGeom (updateNormals p1)).

Definition generateSphere (fuel : nat) (p : Planet) : option Planet :=
  generateSphereWith uvInc fuel p.

(** *** Public methods *)

Definition resetOrientation (p : Planet) : Planet :=
  let p := set_orbitalAngle half_PI p in
  let p := set_axialAngle half_PI p in
  let initAxialAngle := (orbitalInclination p + axialAngle p + axialTilt p)%f32 in
  let p :=
    set_axialRotationMatrix (rotate (modelMatrix p) initAxialAngle xAxisOfRotation) p in
  let p := set_negAxialRotationMatrix (modelMatrix p) p in
  set_rotationAxis (vec3_of_vec4 (mat4_mul_vec4 (axialRotationMatrix p) yAxisMatrix)) p.

(** [animate] on the planet at index [this]; [now] is what [glfwGetTime()]
    returns in this call. *)
Definition animate (now : double) (this : nat) (w : World) : option World :=
  p ← bodies w !! this;
  let w := set_currUpdateTime now w in
  let p := updateAxialRotation w p in
  p ← updateOrbitalRotation w p;
  let w := set_bodies (<[this := p]> (bodies w)) w in
  Some (set_lastUpdateTime (currUpdateTime w) w).

(** What [draw] hands to the shader: the three matrices and the vertex count. *)
Definition draw (p : Planet) : mat4 * mat4 * mat4 * nat :=
  (translationMatrix p, axialRotationMatrix p, negAxialRotationMatrix p,
   length (verts (cpuGeom p))).

(** *** The constructor *)

(** [modelScale = 0.5f / sunRadius], with [sunRadius = 696340.0f]. *)
Definition sunRadius : float := F32.of_Z 696340.
Definition modelScale : float := (F32.of_Z 1 / F32.of_Z 2 / sunRadius)%f32.

(** The constructor of [Planet], run when the table of planets is [bodies w].
    The members the C++ constructor leaves indeterminate until its body has
    assigned them start here at zero, the identity and empty buffers. *)
Definition Planet_new (fuel : nat) (w : World) (actualRadius : float)
    (texturePath : string) (axialSpeed orbitSpeed orbitalIncl tilt : float)
    (parentPtr : option nat) (actualDistanceFromParent : float) : option Planet :=
  let p :=
    {| orbitalInclination := orbitalIncl; axialTilt := tilt;
       distanceFromParent := (actualDistanceFromParent * modelScale)%f32;
       orbitalSpeed := orbitSpeed; rotationSpeed := axialSpeed;
       radius := (actualRadius * modelScale)%f32;
       orbitalAngle := F32.zero; axialAngle := F32.zero; parent := parentPtr;
       position := vec3_zero; rotationAxis := vec3_zero;
       cpuGeom := mkCPU [] [] []; gpuGeom := mkGPU [] [] [];
       texture := texturePath; modelMatrix := mat4_identity;
       translationMatrix := mat4_identity; axialRotationMatrix := mat4_identity;
       negAxialRotationMatrix := mat4_identity |} in
  let p := resetOrientation p in
  p ← updateLocation w p;
  let p := updateTranslationMatrix p in
  generateSphere fuel p.

(** ** The key callback of [Assignment4] *)

(** GLFW's key and action codes. *)
Definition GLFW_PRESS : Z := 1.
Definition GLFW_KEY_SPACE : Z := 32.
Definition GLFW_KEY_R : Z := 82.
Definition GLFW_KEY_DOWN : Z := 264.
Definition GLFW_KEY_UP : Z := 265.

Definition keyCallback (key scancode action mods : Z) (w : World) : World :=
  if (key =? GLFW_KEY_SPACE) && (action =? GLFW_PRESS) then
    set_isAnimating (negb (isAnimating w)) w
  else if (key =? GLFW_KEY_UP) && (action =? GLFW_PRESS) && isAnimating w then
    set_animationSpeed (animationSpeed w + f_0_1)%f32 w
  else if (key =? GLFW_KEY_DOWN) && (action =? GLFW_PRESS) && isAnimating w then
    set_animationSpeed (F32.max F32.zero (animationSpeed w - f_0_1)%f32) w
  else if (key =? GLFW_KEY_R) && (action =? GLFW_PRESS) then
    set_restartAnimation true w
  else w.

(** ** [main] *)

Record KeyEvent : Type := mkKeyEvent {
  ev_key : Z; ev_scancode : Z; ev_action : Z; ev_mods : Z
}.

(** [glfwPollEvents()]: the pending key events reach the callback in order. *)
Definition pollEvents (events : list KeyEvent) (w : World) : World :=
  fold_left
    (fun w e => keyCallback (ev_key e) (ev_scancode e) (ev_action e) (ev_mods e) w)
    events w.

(** The planets of [main], in the order of their construction. *)
Definition sun : nat := 0.
Definition earth : nat := 1.
Definition moon : nat := 2.
Definition starBackground : nat := 3.

(** [planet.resetOrientation()] on the planet at index [this]. *)
Definition resetOrientationAt (this : nat) (w : World) : option World :=
  p ← bodies w !! this;
  Some (set_bodies (<[this := resetOrientation p]> (bodies w)) w).

(** The [if (restartAnimation)] block of the render loop. *)
Definition serviceRestart (w : World) : option World :=
  if restartAnimation w then
    w ← resetOrientationAt sun w;
    w ← resetOrientationAt earth w;
    w ← resetOrientationAt moon w;
    Some (set_restartAnimation false w)
  else Some w.

(** The [if (isAnimating)] block; each [animate] reads the clock itself. *)
Definition animateAll (t_sun t_earth t_moon : double) (w : World) : option World :=
  if isAnimating w then
    w ← animate t_sun sun w;
    w ← animate t_earth earth w;
    animate t_moon moon w
  else Some w.

(** What one iteration of the render loop receives: the key events pending at
    [glfwPollEvents()] and the three readings of [glfwGetTime()]. *)
Record FrameInput : Type := mkFrameInput {
  fi_events : list KeyEvent;
  fi_t_sun : double;
  fi_t_earth : double;
  fi_t_moon : double
}.

(** One iteration of the render loop.  Drawing reads the planets and changes
    none of them. *)
Definition frame (i : FrameInput) (w : World) : option World :=
  let w := pollEvents (fi_events i) w in
  w ← serviceRestart w;
  animateAll (fi_t_sun i) (fi_t_earth i) (fi_t_moon i) w.

(** The render loop over the frames before the window closes. *)
Fixpoint run (frames : list FrameInput) (w : World) : option World :=
  match frames with
  | [] => Some w
  | i :: rest => w' ← frame i w; run rest w'
  end.

(** The constants of [main.cpp]; a decimal literal is the correctly rounded
    quotient of two integers that the format holds exactly. *)
Definition earthRadius : float := (F32.of_Z 6371 * F32.of_Z 30)%f32.
Definition moonRadius : float := (F32.of_Z 17374 / F32.of_Z 10 * F32.of_Z 60)%f32.
Definition backgroundRadius : float := (sunRadius * F32.of_Z 100)%f32.
Definition earthToSun : float :=
  (F32.of_Z 147720000 * (F32.of_Z 1 / F32.of_Z 100))%f32.
Definition moonToEarth : float := (F32.of_Z 384400 * (F32.of_Z 11 / F32.of_Z 10))%f32.
Definition earthOrbitalInclination : float :=
  F32.round (radians (F64.div (F64.of_Z 234) (F64.of_Z 10))).
Definition moonOrbitalInclination : float :=
  F32.round (radians (F64.div (F64.of_Z 515) (F64.of_Z 100))).
Definition earthAxialTilt : float := radiansf (F32.of_Z 234 / F32.of_Z 10)%f32.
Definition moonAxialTilt : float :=
  F32.round (radians (F64.div (F64.of_Z 15) (F64.of_Z 10))).
Definition sunRotationSpeed : float := (F32.of_Z 1997 / F32.of_Z 1000)%f32.
Definition earthRotationSpeed : float := (F32.of_Z 47 / F32.of_Z 100 * F32.of_Z 60)%f32.
Definition moonRotationSpeed : float :=
  (F32.of_Z 4639 / F32.of_Z 1000000 * F32.of_Z 600)%f32.
Definition earthOrbitSpeed : float := (F32.of_Z 30 / F32.of_Z 10)%f32.
Definition moonOrbitSpeed : float := (F32.of_Z 1022 / F32.of_Z 1000 * F32.of_Z 10)%f32.

(** [main] up to the render loop; [t0] is the first reading of the clock. *)
Definition main_init (fuel : nat) (t0 : double) : option World :=
  let w :=
    {| bodies := []; animationSpeed := F32.of_Z 1; isAnimating := true;
       restartAnimation := false; lastUpdateTime := t0;
       currUpdateTime := S754_zero false |} in
  p ← Planet_new fuel w sunRadius "textures/2k_sun.jpg" sunRotationSpeed
        F32.zero F32.zero half_PI None F32.zero;
  let w := set_bodies (bodies w ++ [p]) w in
  p ← Planet_new fuel w earthRadius "textures/2k_earth_daymap.jpg" earthRotationSpeed
        earthOrbitSpeed earthOrbitalInclination earthAxialTilt (Some sun) earthToSun;
  let w := set_bodies (bodies w ++ [p]) w in
  p ← Planet_new fuel w moonRadius "textures/2k_moon.jpg" moonRotationSpeed
        moonOrbitSpeed moonOrbitalInclination moonAxialTilt (Some earth) moonToEarth;
  let w := set_bodies (bodies w ++ [p]) w in
  p ← Planet_new fuel w backgroundRadius "textures/2k_stars.jpg" F32.zero
        F32.zero F32.zero half_PI None F32.zero;
  Some (set_bodies (bodies w ++ [p]) w).

(** ** The mesh as the specification describes it *)

(** The values a loop variable takes when it starts at [x], is stepped by
    [inc] and the loop runs while [x <= bound]; [None] when more than [fuel]
    iterations are needed. *)
Fixpoint frange (fuel : nat) (bound inc x : float) : option (list float) :=
  if (x <=? bound)%f32 then
    match fuel with
    | O => None
    | S n => cons x <$> frange n bound inc (x + inc)%f32
    end
  else Some [].

(** The grid cells [(u, v)] in the order of emission: for every [u] of the
    polar range, every [v] of the azimuth range. *)
Fixpoint sphere_grid_from (fuel fuel_v : nat) (inc u : float)
    : option (list (float * float)) :=
  if (u <=? PI)%f32 then
    match fuel with
    | O => None
    | S n =>
        vs ← frange fuel_v two_PI inc F32.zero;
        rest ← sphere_grid_from n fuel_v inc (u + inc)%f32;
        Some (map (pair u) vs ++ rest)
    end
  else Some [].

Definition sphere_grid (fuel : nat) (inc : float) : option (list (float * float)) :=
  sphere_grid_from fuel fuel inc F32.zero.

(** The six corners of the two triangles of a cell. *)
Definition cell_corners (inc : float) (c : float * float) : list (float * float) :=
  let '(u, v) := c in
  [ (u, v); ((u + inc)%f32, v); (u, (v + inc)%f32);
    ((u + inc)%f32, v); ((u + inc)%f32, (v + inc)%f32); (u, (v + inc)%f32) ].

(** The corners a cell gets in the translated program: all six, or, when
    line 232 is spliced, the five after the first. *)
Definition emitted_corners (inc : float) (c : float * float) : list (float * float) :=
  if splices_backslash_space then tail (cell_corners inc c) else cell_corners inc c.

Definition corners_per_cell : nat := if splices_backslash_space then 5 else 6.

(** [r (sin u cos v, sin u sin v, cos u)] and [(v / 2 pi, u / pi)]. *)
Definition sphere_point (r : float) (c : float * float) : vec3 :=
  let '(u, v) := c in
  vec3_scale r (mkVec3 (sin u * cos v)%f32 (sin u * sin v)%f32 (cos u)).

Definition sphere_texCoord (c : float * float) : vec2 :=
  let '(u, v) := c in mkVec2 (v / (F32.of_Z 2 * PI))%f32 (u / PI)%f32.

(** Appending the vertices and texture coordinates of a list of grid points. *)
Definition emit (pts : list (float * float)) (p : Planet) : Planet :=
  set_cpuGeom
    (mkCPU (verts (cpuGeom p) ++ map (sphere_point (radius p)) pts)
       (texCoords (cpuGeom p) ++ map sphere_texCoord pts)
       (normals (cpuGeom p))) p.

(** Two planets agree on every field other than the normals, the GPU buffers,
    the two angles, the position and the three matrices. *)
Definition same_frozen (p q : Planet) : Prop :=
  orbitalInclination q = orbitalInclination p /\
  axialTilt q = axialTilt p /\
  distanceFromParent q = distanceFromParent p /\
  orbitalSpeed q = orbitalSpeed p /\
  rotationSpeed q = rotationSpeed p /\
  radius q = radius p /\
  parent q = parent p /\
  rotationAxis q = rotationAxis p /\
  verts (cpuGeom q) = verts (cpuGeom p) /\
  texCoords (cpuGeom q) = texCoords (cpuGeom p) /\
  texture q = texture p /\
  modelMatrix q = modelMatrix p.

(** Every parent pointer of the table points into the table. *)
Definition parents_valid (w : World) : Prop :=
  forall i p j, bodies w !! i = Some p -> parent p = Some j -> is_Some (bodies w !! j).

(** No event of the list is a press of the space bar. *)
Definition no_pause_toggle (events : list KeyEvent) : Prop :=
  Forall (fun e => (ev_key e =? GLFW_KEY_SPACE) && (ev_action e =? GLFW_PRESS) = false)
    events.

(** [w'] has the planets of [w], each as it was or reset. *)
Definition only_reset (w w' : World) : Prop :=
  forall j p, bodies w !! j = Some p ->
    exists p', bodies w' !! j = Some p' /\ (p' = p \/ p' = resetOrientation p).

End Orrery.

(** ** An executable instance of the interface *)

(** A stand-in for glm and the C library, for running the model on concrete
    inputs.  Matrices are four columns; [translate], [rotate] and the product
    follow glm's formulas, [sin] and [cos] are short Taylor polynomials.  The
    theorems below hold for every instance of [MathLib]; this one only
    supplies concrete inputs. *)
Module RefLib.

Record mat : Type := mkMat { col0 : vec4; col1 : vec4; col2 : vec4; col3 : vec4 }.

Definition f1 : float := F32.of_Z 1.

Definition identity : mat :=
  mkMat (mkVec4 f1 F32.zero F32.zero F32.zero) (mkVec4 F32.zero f1 F32.zero F32.zero)
    (mkVec4 F32.zero F32.zero f1 F32.zero) (mkVec4 F32.zero F32.zero F32.zero f1).

Definition vec4_add (a b : vec4) : vec4 :=
  mkVec4 (v4x a + v4x b)%f32 (v4y a + v4y b)%f32 (v4z a + v4z b)%f32
    (v4w a + v4w b)%f32.
Definition vec4_scale (a : vec4) (k : float) : vec4 :=
  mkVec4 (v4x a * k)%f32 (v4y a * k)%f32 (v4z a * k)%f32 (v4w a * k)%f32.

Definition mul_vec4 (m : mat) (v : vec4) : vec4 :=
  vec4_add
    (vec4_add (vec4_scale (col0 m) (v4x v)) (vec4_scale (col1 m) (v4y v)))
    (vec4_add (vec4_scale (col2 m) (v4z v)) (vec4_scale (col3 m) (v4w v))).

Definition glm_translate (m : mat) (v : vec3) : mat :=
  mkMat (col0 m) (col1 m) (col2 m)
    (vec4_add
       (vec4_add
          (vec4_add (vec4_scale (col0 m) (v3x v)) (vec4_scale (col1 m) (v3y v)))
          (vec4_scale (col2 m) (v3z v)))
       (col3 m)).

Definition dot (a b : vec3) : float :=
  (v3x a * v3x b + v3y a * v3y b + v3z a * v3z b)%f32.

Definition glm_normalize (v : vec3) : vec3 :=
  vec3_scale (f1 / SFsqrt F32.prec F32.emax (dot v v))%f32 v.

Definition taylor_sin (x : float) : float :=
  let x2 := (x * x)%f32 in
  (x * (f1 - x2 / F32.of_Z 6 * (f1 - x2 / F32.of_Z 20 * (f1 - x2 / F32.of_Z 42))))%f32.

Definition taylor_cos (x : float) : float :=
  let x2 := (x * x)%f32 in
  (f1 - x2 / F32.of_Z 2 * (f1 - x2 / F32.of_Z 12 * (f1 - x2 / F32.of_Z 30)))%f32.

Definition glm_rotate (m : mat) (angle : float) (v : vec3) : mat :=
  let c := taylor_cos angle in
  let s := taylor_sin angle in
  let axis := glm_normalize v in
  let temp := vec3_scale (f1 - c)%f32 axis in
  let r00 := (c + v3x temp * v3x axis)%f32 in
  let r01 := (v3x temp * v3y axis + s * v3z axis)%f32 in
  let r02 := (v3x temp * v3z axis - s * v3y axis)%f32 in
  let r10 := (v3y temp * v3x axis - s * v3z axis)%f32 in
  let r11 := (c + v3y temp * v3y axis)%f32 in
  let r12 := (v3y temp * v3z axis + s * v3x axis)%f32 in
  let r20 := (v3z temp * v3x axis + s * v3y axis)%f32 in
  let r21 := (v3z temp * v3y axis - s * v3x axis)%f32 in
  let r22 := (c + v3z temp * v3z axis)%f32 in
  let lin a b c' :=
    vec4_add (vec4_add (vec4_scale (col0 m) a) (vec4_scale (col1 m) b))
      (vec4_scale (col2 m) c') in
  mkMat (lin r00 r01 r02) (lin r10 r11 r12) (lin r20 r21 r22) (col3 m).

(** [degrees * 0.01745329251994329576923690768489] in each format. *)
Definition glm_radians (x : double) : double :=
  F64.mul x (S754_finite false 5030569068109113 (-58)).
Definition glm_radiansf (x : float) : float :=
  (x * S754_finite false 9370165 (-29))%f32.

Definition lib : MathLib :=
  {| mat4 := mat; mat4_identity := identity; rotate := glm_rotate;
     translate := glm_translate; mat4_mul_vec4 := mul_vec4;
     normalize := glm_normalize; sin := taylor_sin; cos := taylor_cos;
     radians := glm_radians; radiansf := glm_radiansf |}.

End RefLib.

(** A small table for running the model: a root and a child of it, each with
    a mesh of one vertex. *)
Module Demo.

Definition I4 : @mat4 RefLib.lib := RefLib.identity.

Definition root : @Planet RefLib.lib :=
  @resetOrientation RefLib.lib
    {| orbitalInclination := F32.zero; axialTilt := half_PI;
       distanceFromParent := F32.zero; orbitalSpeed := F32.zero;
       rotationSpeed := F32.of_Z 2; radius := F32.of_Z 1;
       orbitalAngle := F32.zero; axialAngle := F32.zero; parent := None;
       position := vec3_zero; rotationAxis := vec3_zero;
       cpuGeom := mkCPU [mkVec3 F32.zero F32.zero (F32.of_Z 1)]
                    [mkVec2 F32.zero F32.zero] [mkVec3 F32.zero F32.zero (F32.of_Z 1)];
       gpuGeom := mkGPU [mkVec3 F32.zero F32.zero (F32.of_Z 1)]
                    [mkVec2 F32.zero F32.zero] [mkVec3 F32.zero F32.zero (F32.of_Z 1)];
       texture := "textures/2k_sun.jpg"; modelMatrix := I4;
       translationMatrix := I4; axialRotationMatrix := I4;
       negAxialRotationMatrix := I4 |}.

Definition child : @Planet RefLib.lib :=
  @resetOrientation RefLib.lib
    {| orbitalInclination := F32.zero; axialTilt := F32.zero;
       distanceFromParent := F32.of_Z 10; orbitalSpeed := F32.of_Z 1;
       rotationSpeed := F32.of_Z 3; radius := F32.of_Z 1;
       orbitalAngle := F32.zero; axialAngle := F32.zero; parent := Some 0%nat;
       position := mkVec3 (F32.of_Z 10) F32.zero F32.zero; rotationAxis := vec3_zero;
       cpuGeom := mkCPU [mkVec3 F32.zero F32.zero (F32.of_Z 1)]
                    [mkVec2 F32.zero F32.zero] [mkVec3 F32.zero F32.zero (F32.of_Z 1)];
       gpuGeom := mkGPU [mkVec3 F32.zero F32.zero (F32.of_Z 1)]
                    [mkVec2 F32.zero F32.zero] [mkVec3 F32.zero F32.zero (F32.of_Z 1)];
       texture := "textures/2k_earth_daymap.jpg"; modelMatrix := I4;
       translationMatrix := I4; axialRotationMatrix := I4;
       negAxialRotationMatrix := I4 |}.

(** Three bodies so that the render loop finds its sun, earth and moon. *)
Definition world : @World RefLib.lib :=
  {| bodies := [root; child; child]; animationSpeed := F32.of_Z 1;
     isAnimating := true; restartAnimation := false;
     lastUpdateTime := F64.of_Z 1; currUpdateTime := F64.of_Z 1 |}.

Definition paused : @World RefLib.lib := @set_isAnimating RefLib.lib false world.

(** Clock readings 1.5, 1.75 and 2, a frame without events and a frame in
    which R is pressed. *)
Definition t1 : double := F64.dyadic 3 (-1).
Definition t2 : double := F64.dyadic 7 (-2).
Definition t3 : double := F64.of_Z 2.
Definition quiet : FrameInput := mkFrameInput [] t1 t2 t3.
Definition restart : FrameInput :=
  mkFrameInput [mkKeyEvent GLFW_KEY_R 0 GLFW_PRESS 0] t1 t2 t3.

(** The results of running the model on them, evaluated. *)
Definition after_animate : @World RefLib.lib :=
  Eval vm_compute in default world (@animate RefLib.lib t1 1 world).
Definition after_quiet : @World RefLib.lib :=
  Eval vm_compute in default world (@frame RefLib.lib quiet world).
Definition after_restart : @World RefLib.lib :=
  Eval vm_compute in default paused (@run RefLib.lib [restart] paused).

End Demo.

(** ** The mouse and window callbacks of [Assignment4] *)

(** What the callbacks take from [Camera.h], whose source is not part of the
    repository: the camera, its constructor from two angles and a distance,
    and its three increments. *)
Class CameraLib : Type := {
  Camera : Type;
  Camera_new : float -> float -> float -> Camera;
  incrementTheta : float -> Camera -> Camera;
  incrementPhi : float -> Camera -> Camera;
  incrementR : float -> Camera -> Camera
}.

Definition GLFW_RELEASE : Z := 0.
Definition GLFW_MOUSE_BUTTON_RIGHT : Z := 1.

Section Callbacks.
Context `{L : MathLib} `{C : CameraLib}.

(** The members of [Assignment4]. *)
Record Assignment4 : Type := mkAssignment4 {
  camera : Camera;
  rightMouseDown : bool;
  aspect : float;
  mouseOldX : double;
  mouseOldY : double
}.

Definition set_camera (x : Camera) (a : Assignment4) : Assignment4 :=
  {| camera := x; rightMouseDown := rightMouseDown a; aspect := aspect a;
     mouseOldX := mouseOldX a; mouseOldY := mouseOldY a |}.
Definition set_rightMouseDown (x : bool) (a : Assignment4) : Assignment4 :=
  {| camera := camera a; rightMouseDown := x; aspect := aspect a;
     mouseOldX := mouseOldX a; mouseOldY := mouseOldY a |}.
Definition set_aspect (x : float) (a : Assignment4) : Assignment4 :=
  {| camera := camera a; rightMouseDown := rightMouseDown a; aspect := x;
     mouseOldX := mouseOldX a; mouseOldY := mouseOldY a |}.
Definition set_mouseOld (x y : double) (a : Assignment4) : Assignment4 :=
  {| camera := camera a; rightMouseDown := rightMouseDown a; aspect := aspect a;
     mouseOldX := x; mouseOldY := y |}.

(** The constructor: [camera(radians(45.f), radians(45.f), 3.0)], aspect 1,
    no button down, the old cursor position at the origin. *)
Definition Assignment4_new : Assignment4 :=
  {| camera :=
       Camera_new (radiansf (F32.of_Z 45)) (radiansf (F32.of_Z 45)) (F32.of_Z 3);
     rightMouseDown := false; aspect := F32.of_Z 1;
     mouseOldX := S754_zero false; mouseOldY := S754_zero false |}.

Definition mouseButtonCallback (button action mods : Z) (a : Assignment4)
    : Assignment4 :=
  if button =? GLFW_MOUSE_BUTTON_RIGHT then
    if action =? GLFW_PRESS then set_rightMouseDown true a
    else if action =? GLFW_RELEASE then set_rightMouseDown false a
    else a
  else a.

Definition cursorPosCallback (xpos ypos : double) (a : Assignment4) : Assignment4 :=
  let a :=
    if rightMouseDown a then
      let a :=
        set_camera
          (incrementTheta (F32.round (F64.sub ypos (mouseOldY a))) (camera a)) a in
      set_camera (incrementPhi (F32.round (F64.sub xpos (mouseOldX a))) (camera a)) a
    else a in
  set_mouseOld xpos ypos a.

Definition scrollCallback (xoffset yoffset : double) (a : Assignment4) : Assignment4 :=
  set_camera (incrementR (F32.round yoffset) (camera a)) a.

(** [aspect = float(width) / float(height)]; the call of the base class sets
    the viewport and touches no member. *)
Definition windowSizeCallback (width height : Z) (a : Assignment4) : Assignment4 :=
  set_aspect (F32.of_Z width / F32.of_Z height)%f32 a.

(** The events [glfwPollEvents()] delivers to the callbacks. *)
Inductive InputEvent : Type :=
  | EvKey (key scancode action mods : Z)
  | EvMouseButton (button action mods : Z)
  | EvCursorPos (xpos ypos : double)
  | EvScroll (xoffset yoffset : double)
  | EvWindowSize (width height : Z).

(** One event, on the members of [Assignment4] and on the globals. *)
Definition dispatch (e : InputEvent) (s : Assignment4 * World) : Assignment4 * World :=
  match e with
  | EvKey key scancode action mods => (s.1, keyCallback key scancode action mods s.2)
  | EvMouseButton button action mods => (mouseButtonCallback button action mods s.1, s.2)
  | EvCursorPos xpos ypos => (cursorPosCallback xpos ypos s.1, s.2)
  | EvScroll xoffset yoffset => (scrollCallback xoffset yoffset s.1, s.2)
  | EvWindowSize width height => (windowSizeCallback width height s.1, s.2)
  end.

Definition dispatchAll (events : list InputEvent) (s : Assignment4 * World)
    : Assignment4 * World :=
  fold_left (fun s e => dispatch e s) events s.

(** What the scroll events alone do to a camera. *)
Definition scrolled (events : list InputEvent) (c : Camera) : Camera :=
  fold_left
    (fun c e =>
       match e with
       | EvScroll _ yoffset => incrementR (F32.round yoffset) c
       | _ => c
       end) events c.

(** The cursor position recorded after the events, from the one recorded
    before: that of the last cursor event. *)
Definition last_cursor (events : list InputEvent) (pos : double * double)
    : double * double :=
  fold_left
    (fun pos e => match e with EvCursorPos xpos ypos => (xpos, ypos) | _ => pos end)
    events pos.

(** The key events among the events, in order. *)
Definition key_events (events : list InputEvent) : list KeyEvent :=
  omap
    (fun e =>
       match e with
       | EvKey key scancode action mods => Some (mkKeyEvent key scancode action mods)
       | _ => None
       end) events.

(** The event is a press of the right mouse button. *)
Definition is_right_press (e : InputEvent) : bool :=
  match e with
  | EvMouseButton button action _ =>
      (button =? GLFW_MOUSE_BUTTON_RIGHT) && (action =? GLFW_PRESS)
  | _ => false
  end.

End Callbacks.

(** ** Conditions on planets and worlds *)

Section Conditions.
Context `{L : MathLib}.

(** The buffers on the GPU hold what the vectors hold, and there is one
    normal and one texture coordinate for every vertex. *)
Definition mesh_ok (p : Planet) : Prop :=
  vertBuffer (gpuGeom p) = verts (cpuGeom p) /\
  texCoordBuffer (gpuGeom p) = texCoords (cpuGeom p) /\
  normalBuffer (gpuGeom p) = normals (cpuGeom p) /\
  length (normals (cpuGeom p)) = length (verts (cpuGeom p)) /\
  length (texCoords (cpuGeom p)) = length (verts (cpuGeom p)).

(** The table holds a sun, an earth and a moon, and every parent pointer
    points into it. *)
Definition well_formed (w : World) : Prop :=
  parents_valid w /\ (3 <= length (bodies w))%nat.

(** The offset of a planet from its parent at its present orbital angle. *)
Definition orbit_offset (p : Planet) : vec3 :=
  vec3_scale (distanceFromParent p)
    (mkVec3 (sin (orbitalAngle p))
       (sin (orbitalAngle p) * sin (orbitalInclination p))%f32
       (cos (orbitalAngle p))).

(** A key event that neither toggles the pause nor requests a reset. *)
Definition idle_key (e : KeyEvent) : Prop :=
  (ev_key e =? GLFW_KEY_SPACE) && (ev_action e =? GLFW_PRESS) = false /\
  (ev_key e =? GLFW_KEY_R) && (ev_action e =? GLFW_PRESS) = false.

(** The event is a press of R. *)
Definition is_R_press (e : KeyEvent) : Prop :=
  ev_key e = GLFW_KEY_R /\ ev_action e = GLFW_PRESS.

(** Zero or a finite number: not an infinity, not a NaN. *)
Definition finite_float (x : spec_float) : Prop :=
  match x with
  | S754_zero _ | S754_finite _ _ _ => True
  | _ => False
  end.

(** A finite number other than zero. *)
Definition finite_nonzero (x : spec_float) : Prop :=
  match x with
  | S754_finite _ _ _ => True
  | _ => False
  end.

End Conditions.

(** ** More concrete inputs *)

(** A stand-in for the camera of [Camera.h], for running the callbacks: the
    three spherical coordinates, each increment added to its coordinate.  The
    theorems hold for every instance of [CameraLib]. *)
Module RefCamera.

Record cam : Type := mkCam { theta : float; phi : float; dist : float }.

Definition lib : CameraLib :=
  {| Camera := cam; Camera_new := mkCam;
     incrementTheta := fun d c => mkCam (theta c + d)%f32 (phi c) (dist c);
     incrementPhi := fun d c => mkCam (theta c) (phi c + d)%f32 (dist c);
     incrementR := fun d c => mkCam (theta c) (phi c) (dist c + d)%f32 |}.

End RefCamera.

Module Demo2.

(** A child of the child of [Demo]. *)
Definition moon : @Planet RefLib.lib :=
  @resetOrientation RefLib.lib
    {| orbitalInclination := F32.zero; axialTilt := F32.zero;
       distanceFromParent := F32.of_Z 2; orbitalSpeed := F32.of_Z 4;
       rotationSpeed := F32.of_Z 1; radius := F32.of_Z 1;
       orbitalAngle := F32.zero; axialAngle := F32.zero; parent := Some 1%nat;
       position := mkVec3 (F32.of_Z 12) F32.zero F32.zero; rotationAxis := vec3_zero;
       cpuGeom := mkCPU [mkVec3 F32.zero F32.zero (F32.of_Z 1)]
                    [mkVec2 F32.zero F32.zero] [mkVec3 F32.zero F32.zero (F32.of_Z 1)];
       gpuGeom := mkGPU [mkVec3 F32.zero F32.zero (F32.of_Z 1)]
                    [mkVec2 F32.zero F32.zero] [mkVec3 F32.zero F32.zero (F32.of_Z 1)];
       texture := "textures/2k_moon.jpg"; modelMatrix := Demo.I4;
       translationMatrix := Demo.I4; axialRotationMatrix := Demo.I4;
       negAxialRotationMatrix := Demo.I4 |}.

(** A table shaped as that of [main]: a root, its child, the child's child
    and a second root. *)
Definition world : @World RefLib.lib :=
  {| bodies := [Demo.root; Demo.child; moon; Demo.root];
     animationSpeed := F32.of_Z 1; isAnimating := true; restartAnimation := false;
     lastUpdateTime := F64.of_Z 1; currUpdateTime := F64.of_Z 1 |}.

Definition paused : @World RefLib.lib := @set_isAnimating RefLib.lib false world.

(** The same at speed zero. *)
Definition stopped : @World RefLib.lib :=
  @set_animationSpeed RefLib.lib F32.zero world.

(** A frame in which the arrow keys and an unbound key are pressed. *)
Definition arrows : FrameInput :=
  mkFrameInput
    [mkKeyEvent GLFW_KEY_UP 0 GLFW_PRESS 0; mkKeyEvent GLFW_KEY_DOWN 0 GLFW_PRESS 0;
     mkKeyEvent 65 0 GLFW_PRESS 0] Demo.t1 Demo.t2 Demo.t3.

(** A planet whose GPU buffers were never filled, and the table of [world]
    with it in the last place. *)
Definition bare : @Planet RefLib.lib :=
  @set_gpuGeom RefLib.lib (mkGPU [] [] []) Demo.root.

Definition uneven : @World RefLib.lib :=
  @set_bodies RefLib.lib [Demo.root; Demo.child; moon; bare] world.

Definition after_run : @World RefLib.lib :=
  Eval vm_compute in default world (@run RefLib.lib [Demo.quiet; Demo.restart] world).
Definition after_uneven : @World RefLib.lib :=
  Eval vm_compute in default uneven (@run RefLib.lib [Demo.quiet; Demo.restart] uneven).
Definition after_restart_paused : @World RefLib.lib :=
  Eval vm_compute in default paused (@frame RefLib.lib Demo.restart paused).
Definition after_restart_animating : @World RefLib.lib :=
  Eval vm_compute in default world (@frame RefLib.lib Demo.restart world).
Definition after_quiet : @World RefLib.lib :=
  Eval vm_compute in default world (@frame RefLib.lib Demo.quiet world).
Definition after_stopped : @World RefLib.lib :=
  Eval vm_compute in default stopped (@animate RefLib.lib Demo.t1 1 stopped).
Definition after_animate : @World RefLib.lib :=
  Eval vm_compute in default world (@animate RefLib.lib Demo.t1 1 world).

(** Mouse events: a move, a press of the left button, a scroll, a resize and
    a release of the right button. *)
Definition mouse_events : list InputEvent :=
  [EvCursorPos (F64.of_Z 10) (F64.of_Z 20); EvMouseButton 0 GLFW_PRESS 0;
   EvScroll (F64.of_Z 0) (F64.of_Z 1); EvKey GLFW_KEY_SPACE 0 GLFW_PRESS 0;
   EvWindowSize 800 600; EvMouseButton GLFW_MOUSE_BUTTON_RIGHT GLFW_RELEASE 0;
   EvCursorPos (F64.of_Z 30) (F64.of_Z 40)].

Definition callbacks : @Assignment4 RefCamera.lib :=
  @Assignment4_new RefLib.lib RefCamera.lib.

End Demo2.

(** * Properties *)

(** ** The literals *)

(** [PI] is the float nearest to 3.14159265359 (within half a unit in the
    last place, [2 ^ -22]), and [uvInc] is the float [13421773 * 2 ^ -27]. *)
Lemma literals :
  Z.abs (2 * (13176795 * 10 ^ 11 - 314159265359 * 2 ^ 22)) <= 10 ^ 11 /\
  uvInc = S754_finite false 13421773 (-27) /\
  half_PI = S754_finite false 13176795 (-23) /\
  two_PI = S754_finite false 13176795 (-21).
Proof. repeat split; vm_compute; congruence. Qed.

(** ** Signs of rounded sums *)

Section Rounding.
Variables prec emax : Z.

Lemma shr_1_nonneg (mrs : shr_record) : 0 <= shr_m mrs -> 0 <= shr_m (shr_1 mrs).
Proof.
  destruct mrs as [m r s]; simpl.
  destruct m as [|q|q]; simpl; try lia; destruct q; simpl; lia.
Qed.

Lemma iter_pos_invariant {A : Type} (P : A -> Prop) (f : A -> A) :
  (forall x, P x -> P (f x)) -> forall n x, P x -> P (SpecFloat.iter_pos f n x).
Proof.
  intros Hf n; induction n as [n IH|n IH|]; intros x Hx; simpl; auto.
Qed.

Lemma shr_fexp_nonneg (m e : Z) (l : location) :
  0 <= m -> 0 <= shr_m (fst (shr_fexp prec emax m e l)).
Proof.
  intros Hm. unfold shr_fexp, shr.
  assert (H0 : 0 <= shr_m (shr_record_of_loc m l)).
  { destruct l as [|[]]; simpl; exact Hm. }
  destruct (fexp prec emax (Zdigits2 m + e) - e) as [|n|n]; simpl; auto.
  apply (iter_pos_invariant (fun x => 0 <= shr_m x)); auto using shr_1_nonneg.
Qed.

Lemma round_nearest_even_nonneg (m : Z) (l : location) :
  0 <= m -> 0 <= round_nearest_even m l.
Proof.
  intros Hm; destruct l as [|[]]; simpl; try lia.
  destruct (Z.even m); lia.
Qed.

Lemma nonneg_float_leb (x : spec_float) :
  nonneg_float x <-> SFleb (S754_zero false) x = true.
Proof.
  destruct x as [s|s| |s m e]; simpl; unfold SFleb; simpl;
    try destruct s; intuition congruence.
Qed.

Lemma binary_round_aux_nonneg (m e : Z) (l : location) :
  0 <= m -> nonneg_float (binary_round_aux prec emax false m e l).
Proof.
  intros Hm. unfold binary_round_aux.
  pose proof (shr_fexp_nonneg m e l Hm) as H1.
  destruct (shr_fexp prec emax m e l) as [mrs1 e1]; simpl in H1.
  pose proof (shr_fexp_nonneg _ e1 loc_Exact
                (round_nearest_even_nonneg _ (loc_of_shr_record mrs1) H1)) as H2.
  destruct (shr_fexp prec emax (round_nearest_even _ _) e1 loc_Exact) as [mrs2 e2].
  simpl in H2.
  destruct (shr_m mrs2) as [|q|q]; simpl; auto; try lia.
  destruct (e2 <=? emax - prec); simpl; auto.
Qed.

Lemma binary_round_nonneg (m : positive) (e : Z) :
  nonneg_float (binary_round prec emax false m e).
Proof.
  unfold binary_round.
  destruct (shl_align m e _) as [mz ez].
  apply binary_round_aux_nonneg; lia.
Qed.

(** The sum of two floats that are not negative is not negative. *)
Lemma SFadd_nonneg (x y : spec_float) :
  nonneg_float x -> nonneg_float y -> nonneg_float (SFadd prec emax x y).
Proof.
  destruct x as [sx|sx| |sx mx ex], y as [sy|sy| |sy my ey]; simpl;
    try tauto; try (intros; subst; simpl; tauto).
  - destruct sx, sy; simpl; tauto.
  - intros -> ->; simpl.
    destruct (shl_align mx ex _) as [a ea], (shl_align my ey _) as [b eb]; simpl.
    apply binary_round_nonneg.
Qed.

End Rounding.

Section Properties.
Context `{L : MathLib} `{T : Translation}.

(** ** The speed multiplier *)

Lemma keyCallback_speed_nonneg (key scancode action mods : Z) (w : World) :
  F32.leb F32.zero (animationSpeed w) = true ->
  F32.leb F32.zero (animationSpeed (keyCallback key scancode action mods w)) = true.
Proof.
  intros Hw. unfold keyCallback.
  destruct ((key =? GLFW_KEY_SPACE) && (action =? GLFW_PRESS)); [exact Hw|].
  destruct ((key =? GLFW_KEY_UP) && (action =? GLFW_PRESS) && isAnimating w).
  { simpl. apply nonneg_float_leb, SFadd_nonneg.
    - apply nonneg_float_leb, Hw.
    - reflexivity. }
  destruct ((key =? GLFW_KEY_DOWN) && (action =? GLFW_PRESS) && isAnimating w).
  { simpl. unfold F32.max.
    destruct (F32.ltb F32.zero (animationSpeed w - f_0_1)%f32) eqn:Hlt;
      [|reflexivity].
    unfold F32.ltb, SFltb in Hlt. unfold F32.leb, SFleb.
    destruct (SFcompare F32.zero _) as [[]|]; congruence. }
  destruct ((key =? GLFW_KEY_R) && (action =? GLFW_PRESS)); exact Hw.
Qed.

(** C8: starting from a speed multiplier that is not negative, no sequence of
    key events (speed up, speed down, or any other key) drives
    [animationSpeed] below zero. *)
Theorem speed_never_negative (events : list KeyEvent) (w : World) :
  F32.leb F32.zero (animationSpeed w) = true ->
  F32.leb F32.zero (animationSpeed (pollEvents events w)) = true.
Proof.
  unfold pollEvents. revert w.
  induction events as [|e events IH]; intros w Hw; simpl; [exact Hw|].
  apply IH, keyCallback_speed_nonneg, Hw.
Qed.

(** While animating, a speed-down event leaves a multiplier that is not
    negative, whatever the multiplier was. *)
Lemma decreaseSpeed_floor (scancode mods : Z) (w : World) :
  isAnimating w = true ->
  F32.leb F32.zero
    (animationSpeed (keyCallback GLFW_KEY_DOWN scancode GLFW_PRESS mods w)) = true.
Proof.
  intros Ha. unfold keyCallback; simpl; rewrite Ha; simpl. unfold F32.max.
  destruct (F32.ltb F32.zero (animationSpeed w - f_0_1)%f32) eqn:Hlt;
    [|reflexivity].
  revert Hlt. generalize (animationSpeed w - f_0_1)%f32. intros x.
  destruct x as [s|s| |s m e]; try destruct s; simpl; try discriminate; reflexivity.
Qed.

(** ** Effects of the methods on one planet *)

Lemma resetOrientation_idem (p : Planet) :
  resetOrientation (resetOrientation p) = resetOrientation p.
Proof. destruct p; reflexivity. Qed.

Lemma updateLocation_Some (w : World) (p q : Planet) :
  updateLocation w p = Some q -> exists pos, q = set_position pos p.
Proof.
  unfold updateLocation. destruct (parent p) as [j|].
  - destruct (bodies w !! j) as [r|]; simpl; [|discriminate].
    intros [= <-]; eauto.
  - intros [= <-]; eauto.
Qed.

Lemma updateLocation_total (w : World) (p : Planet) :
  (forall j, parent p = Some j -> is_Some (bodies w !! j)) ->
  is_Some (updateLocation w p).
Proof.
  intros Hp. unfold updateLocation. destruct (parent p) as [j|]; [|eauto].
  destruct (Hp j eq_refl) as [q ->]; simpl; eauto.
Qed.

Lemma updateOrbitalRotation_Some (w : World) (p q : Planet) :
  updateOrbitalRotation w p = Some q ->
  exists pos,
    let p1 :=
      set_orbitalAngle
        (orbitalAngle p + orbitalSpeed p * animationSpeed w * getElapsedTime w)%f32 p in
    updateLocation w p1 = Some (set_position pos p1) /\
    q = updateTranslationMatrix (updateNormals (set_position pos p1)).
Proof.
  unfold updateOrbitalRotation.
  destruct (updateLocation w _) as [p2|] eqn:Hloc; simpl; [|discriminate].
  intros [= <-]. destruct (updateLocation_Some _ _ _ Hloc) as [pos ->]. eauto.
Qed.

(** What a successful [animate] did: the planet it ran on, and the planet and
    the globals it left. *)
Lemma animate_Some (now : double) (this : nat) (w w' : World) :
  animate now this w = Some w' ->
  exists p q,
    bodies w !! this = Some p /\
    updateOrbitalRotation (set_currUpdateTime now w)
      (updateAxialRotation (set_currUpdateTime now w) p) = Some q /\
    w' = set_lastUpdateTime now
           (set_bodies (<[this := q]> (bodies w)) (set_currUpdateTime now w)).
Proof.
  unfold animate. destruct (bodies w !! this) as [p|]; simpl; [|discriminate].
  destruct (updateOrbitalRotation _ _) as [q|] eqn:Hq; simpl; [|discriminate].
  intros [= <-]. exists p, q. auto.
Qed.

Lemma animate_total (now : double) (this : nat) (w : World) :
  parents_valid w -> is_Some (bodies w !! this) -> is_Some (animate now this w).
Proof.
  intros Hv [p Hp]. unfold animate. rewrite Hp; simpl.
  unfold updateOrbitalRotation.
  destruct (updateLocation_total (set_currUpdateTime now w)
              (set_orbitalAngle
                 (orbitalAngle (updateAxialRotation (set_currUpdateTime now w) p) +
                  orbitalSpeed (updateAxialRotation (set_currUpdateTime now w) p) *
                  animationSpeed (set_currUpdateTime now w) *
                  getElapsedTime (set_currUpdateTime now w))%f32
                 (updateAxialRotation (set_currUpdateTime now w) p))) as [q Hq].
  { intros j Hj. apply (Hv this p j Hp). exact Hj. }
  rewrite Hq; simpl; eauto.
Qed.

(** ** Frozen fields *)

Lemma same_frozen_refl (p : Planet) : same_frozen p p.
Proof. repeat split; reflexivity. Qed.

Lemma same_frozen_trans (p q r : Planet) :
  same_frozen p q -> same_frozen q r -> same_frozen p r.
Proof. unfold same_frozen; intuition congruence. Qed.

Lemma updateAxialRotation_frozen (w : World) (p : Planet) :
  same_frozen p (updateAxialRotation w p).
Proof. repeat split; reflexivity. Qed.

Lemma updateNormals_frozen (p : Planet) : same_frozen p (updateNormals p).
Proof. repeat split; reflexivity. Qed.

Lemma updateTranslationMatrix_frozen (p : Planet) :
  same_frozen p (updateTranslationMatrix p).
Proof.
  unfold updateTranslationMatrix.
  destruct (parent p); repeat split; reflexivity.
Qed.

Lemma updateOrbitalRotation_frozen (w : World) (p q : Planet) :
  updateOrbitalRotation w p = Some q -> same_frozen p q.
Proof.
  intros H. destruct (updateOrbitalRotation_Some _ _ _ H) as (pos & _ & ->).
  eapply same_frozen_trans; [|apply updateTranslationMatrix_frozen].
  eapply same_frozen_trans; [|apply updateNormals_frozen].
  repeat split; reflexivity.
Qed.

(** ** Positions *)

(** C2: a location update of a body whose parent is at [position q] leaves it
    at [position q + d (sin t, sin t sin i, cos t)], with [d] its distance, [i]
    its inclination and [t] its orbital angle, whatever [t] is; a body with no
    parent is left at [(0, 0, 0)] whatever its angles are. *)
Theorem updateLocation_position (w : World) (p : Planet) :
  (forall j q, parent p = Some j -> bodies w !! j = Some q ->
     exists p', updateLocation w p = Some p' /\
       orbitalAngle p' = orbitalAngle p /\
       position p' =
         vec3_add (position q)
           (vec3_scale (distanceFromParent p)
              (mkVec3 (sin (orbitalAngle p))
                 (sin (orbitalAngle p) * sin (orbitalInclination p))%f32
                 (cos (orbitalAngle p))))) /\
  (parent p = None ->
     exists p', updateLocation w p = Some p' /\ position p' = vec3_zero).
Proof.
  split.
  - intros j q Hj Hq. unfold updateLocation. rewrite Hj, Hq; simpl.
    eexists; split; [reflexivity|]; split; reflexivity.
  - intros Hn. unfold updateLocation. rewrite Hn.
    eexists; split; reflexivity.
Qed.

(** The same after [animate]: the new position is composed from the parent's
    position in the table and the new orbital angle. *)
Lemma animate_position (now : double) (this : nat) (w w' : World) (p : Planet) :
  bodies w !! this = Some p -> animate now this w = Some w' ->
  exists p', bodies w' !! this = Some p' /\
    match parent p with
    | None => position p' = vec3_zero
    | Some j =>
        exists q, bodies w !! j = Some q /\
          position p' =
            vec3_add (position q)
              (vec3_scale (distanceFromParent p)
                 (mkVec3 (sin (orbitalAngle p'))
                    (sin (orbitalAngle p') * sin (orbitalInclination p))%f32
                    (cos (orbitalAngle p'))))
    end.
Proof.
  intros Hp Ha. destruct (animate_Some _ _ _ _ Ha) as (p0 & q & Hp0 & Hq & ->).
  rewrite Hp in Hp0; injection Hp0 as <-.
  destruct (updateOrbitalRotation_Some _ _ _ Hq) as (pos & Hloc & ->).
  exists (updateTranslationMatrix (updateNormals
            (set_position pos
               (set_orbitalAngle
                  (orbitalAngle (updateAxialRotation (set_currUpdateTime now w) p) +
                   orbitalSpeed (updateAxialRotation (set_currUpdateTime now w) p) *
                   animationSpeed (set_currUpdateTime now w) *
                   getElapsedTime (set_currUpdateTime now w))%f32
                  (updateAxialRotation (set_currUpdateTime now w) p))))).
  split.
  { simpl. apply list_lookup_insert_eq. eapply lookup_lt_Some, Hp. }
  simpl in Hloc. unfold updateLocation in Hloc. simpl in Hloc.
  unfold updateTranslationMatrix; simpl.
  destruct (parent p) as [j|] eqn:Hj; simpl.
  - destruct (bodies w !! j) as [r|] eqn:Hr; simpl in Hloc; [|discriminate].
    exists r; split; [reflexivity|].
    injection Hloc as Hpos. rewrite <- Hpos. reflexivity.
  - injection Hloc as Hpos. rewrite <- Hpos. reflexivity.
Qed.

(** ** Angles and the clock *)

(** The delta an [animate] call computes: the clock reading of the call minus
    the stamp the previous [animate] call of any planet left. *)
Lemma animate_angles (now : double) (this : nat) (w w' : World) (p : Planet) :
  bodies w !! this = Some p -> animate now this w = Some w' ->
  exists p', bodies w' !! this = Some p' /\
    axialAngle p' =
      (axialAngle p +
       rotationSpeed p * animationSpeed w *
       F32.round (F64.sub now (lastUpdateTime w)))%f32 /\
    orbitalAngle p' =
      (orbitalAngle p +
       orbitalSpeed p * animationSpeed w *
       F32.round (F64.sub now (lastUpdateTime w)))%f32.
Proof.
  intros Hp Ha. destruct (animate_Some _ _ _ _ Ha) as (p0 & q & Hp0 & Hq & ->).
  rewrite Hp in Hp0; injection Hp0 as <-.
  destruct (updateOrbitalRotation_Some _ _ _ Hq) as (pos & _ & ->).
  eexists; split.
  { simpl. apply list_lookup_insert_eq. eapply lookup_lt_Some, Hp. }
  unfold updateTranslationMatrix; simpl.
  destruct (parent p); split; reflexivity.
Qed.

Lemma animate_globals (now : double) (this : nat) (w w' : World) :
  animate now this w = Some w' ->
  animationSpeed w' = animationSpeed w /\ isAnimating w' = isAnimating w /\
  restartAnimation w' = restartAnimation w /\
  lastUpdateTime w' = now /\ currUpdateTime w' = now.
Proof.
  intros Ha. destruct (animate_Some _ _ _ _ Ha) as (p & q & _ & _ & ->).
  repeat split; reflexivity.
Qed.

Lemma animate_lookup (now : double) (this : nat) (w w' : World) (j : nat) (p : Planet) :
  animate now this w = Some w' -> bodies w !! j = Some p ->
  exists p', bodies w' !! j = Some p' /\ same_frozen p p' /\ (j <> this -> p' = p).
Proof.
  intros Ha Hj. destruct (animate_Some _ _ _ _ Ha) as (p0 & q & Hp0 & Hq & ->).
  simpl. destruct (decide (j = this)) as [->|Hne].
  - rewrite Hj in Hp0; injection Hp0 as <-.
    exists q; split; [|split].
    + apply list_lookup_insert_eq. eapply lookup_lt_Some, Hj.
    + eapply same_frozen_trans;
        [apply updateAxialRotation_frozen|eapply updateOrbitalRotation_frozen, Hq].
    + intros Hc; contradiction.
  - exists p; split; [|split].
    + rewrite list_lookup_insert_ne by congruence. exact Hj.
    + apply same_frozen_refl.
    + reflexivity.
Qed.

Lemma animate_parents_valid (now : double) (this : nat) (w w' : World) :
  animate now this w = Some w' -> parents_valid w -> parents_valid w'.
Proof.
  intros Ha Hv i p' j Hi Hj.
  destruct (animate_Some _ _ _ _ Ha) as (p0 & q & Hp0 & Hq & Hw).
  assert (Hlen : length (bodies w') = length (bodies w)).
  { subst w'; simpl. apply length_insert. }
  assert (Hi0 : is_Some (bodies w !! i)).
  { apply lookup_lt_is_Some. rewrite <- Hlen. eapply lookup_lt_Some, Hi. }
  destruct Hi0 as [p Hp].
  destruct (animate_lookup _ _ _ _ _ _ Ha Hp) as (p1 & Hp1 & Hfro & _).
  rewrite Hi in Hp1; injection Hp1 as <-.
  assert (Hpar : parent p = Some j).
  { destruct Hfro as (_ & _ & _ & _ & _ & _ & Hpa & _). congruence. }
  apply lookup_lt_is_Some. rewrite Hlen.
  apply lookup_lt_is_Some. eapply Hv; eauto.
Qed.

(** C3: one [animate] call, at a clock reading [now], leaves [axialAngle] at
    its value before the call plus [rotationSpeed * animationSpeed * dt] in
    binary32 arithmetic, where [dt] is the advance of the clock since the stamp
    [lastUpdateTime], rounded to [float]; this holds for every speed and every
    advance, in particular the positive ones. *)
Theorem animate_axialAngle (now : double) (this : nat) (w w' : World) (p : Planet) :
  bodies w !! this = Some p -> animate now this w = Some w' ->
  exists p', bodies w' !! this = Some p' /\
    axialAngle p' =
      (axialAngle p +
       rotationSpeed p * animationSpeed w *
       F32.round (F64.sub now (lastUpdateTime w)))%f32.
Proof.
  intros Hp Ha. destruct (animate_angles _ _ _ _ _ Hp Ha) as (p' & Hp' & Hax & _).
  exists p'; split; [exact Hp'|exact Hax].
Qed.

(** ** Reset *)

Lemma resetOrientation_fields (p : Planet) :
  orbitalAngle (resetOrientation p) = half_PI /\
  axialAngle (resetOrientation p) = half_PI /\
  axialRotationMatrix (resetOrientation p) =
    rotate (modelMatrix p) (orbitalInclination p + half_PI + axialTilt p)%f32
      xAxisOfRotation /\
  negAxialRotationMatrix (resetOrientation p) = modelMatrix p /\
  rotationAxis (resetOrientation p) =
    vec3_of_vec4
      (mat4_mul_vec4
         (rotate (modelMatrix p) (orbitalInclination p + half_PI + axialTilt p)%f32
            xAxisOfRotation) yAxisMatrix) /\
  position (resetOrientation p) = position p /\
  translationMatrix (resetOrientation p) = translationMatrix p /\
  cpuGeom (resetOrientation p) = cpuGeom p /\
  gpuGeom (resetOrientation p) = gpuGeom p /\
  parent (resetOrientation p) = parent p.
Proof. repeat split; reflexivity. Qed.

Lemma resetOrientationAt_Some (this : nat) (w w' : World) :
  resetOrientationAt this w = Some w' ->
  exists p, bodies w !! this = Some p /\
    w' = set_bodies (<[this := resetOrientation p]> (bodies w)) w.
Proof.
  unfold resetOrientationAt.
  destruct (bodies w !! this) as [p|]; simpl; [|discriminate].
  intros [= <-]; eauto.
Qed.

Lemma resetOrientationAt_lookup (this : nat) (w w' : World) (j : nat) (p : Planet) :
  resetOrientationAt this w = Some w' -> bodies w !! j = Some p ->
  bodies w' !! j = Some (if decide (j = this) then resetOrientation p else p).
Proof.
  intros Hr Hj. destruct (resetOrientationAt_Some _ _ _ Hr) as (p0 & Hp0 & ->).
  simpl. destruct (decide (j = this)) as [->|Hne].
  - rewrite Hj in Hp0; injection Hp0 as <-.
    apply list_lookup_insert_eq. eapply lookup_lt_Some, Hj.
  - rewrite list_lookup_insert_ne by congruence. exact Hj.
Qed.

(** C6: [resetOrientation] called twice in succession leaves the same
    [axialAngle], [orbitalAngle] and [rotationAxis] (indeed the same planet,
    and the same table) as [resetOrientation] called once. *)
Theorem resetOrientation_twice (p : Planet) :
  axialAngle (resetOrientation (resetOrientation p)) = axialAngle (resetOrientation p) /\
  orbitalAngle (resetOrientation (resetOrientation p)) =
    orbitalAngle (resetOrientation p) /\
  rotationAxis (resetOrientation (resetOrientation p)) =
    rotationAxis (resetOrientation p) /\
  resetOrientation (resetOrientation p) = resetOrientation p /\
  forall (this : nat) (w : World),
    resetOrientationAt this w ≫= resetOrientationAt this = resetOrientationAt this w.
Proof.
  rewrite resetOrientation_idem. repeat split.
  intros this w.
  destruct (resetOrientationAt this w) as [w1|] eqn:H1; simpl; [|reflexivity].
  destruct (resetOrientationAt_Some _ _ _ H1) as (q & Hq & ->).
  unfold resetOrientationAt; simpl.
  rewrite list_lookup_insert_eq by (eapply lookup_lt_Some, Hq); simpl.
  rewrite list_insert_insert_eq, resetOrientation_idem. reflexivity.
Qed.

(** ** Events *)

Lemma keyCallback_keeps (key scancode action mods : Z) (w : World) :
  bodies (keyCallback key scancode action mods w) = bodies w /\
  lastUpdateTime (keyCallback key scancode action mods w) = lastUpdateTime w /\
  currUpdateTime (keyCallback key scancode action mods w) = currUpdateTime w.
Proof.
  unfold keyCallback.
  repeat match goal with |- context [if ?b then _ else _] => destruct b end;
    repeat split; reflexivity.
Qed.

Lemma pollEvents_keeps (events : list KeyEvent) (w : World) :
  bodies (pollEvents events w) = bodies w /\
  lastUpdateTime (pollEvents events w) = lastUpdateTime w /\
  currUpdateTime (pollEvents events w) = currUpdateTime w.
Proof.
  unfold pollEvents. revert w.
  induction events as [|e events IH]; intros w; simpl; [repeat split; reflexivity|].
  destruct (IH (keyCallback (ev_key e) (ev_scancode e) (ev_action e) (ev_mods e) w))
    as (Hb & Hl & Hc).
  destruct (keyCallback_keeps (ev_key e) (ev_scancode e) (ev_action e) (ev_mods e) w)
    as (Hb' & Hl' & Hc').
  repeat split; congruence.
Qed.

(** While paused, a key other than the space bar changes neither the pause
    flag nor the speed. *)
Lemma keyCallback_paused (key scancode action mods : Z) (w : World) :
  isAnimating w = false ->
  (key =? GLFW_KEY_SPACE) && (action =? GLFW_PRESS) = false ->
  isAnimating (keyCallback key scancode action mods w) = false /\
  animationSpeed (keyCallback key scancode action mods w) = animationSpeed w.
Proof.
  intros Ha Hk. unfold keyCallback. rewrite Hk, Ha, !andb_false_r.
  destruct ((key =? GLFW_KEY_R) && (action =? GLFW_PRESS)); simpl; auto.
Qed.

Lemma pollEvents_paused (events : list KeyEvent) (w : World) :
  isAnimating w = false -> no_pause_toggle events ->
  isAnimating (pollEvents events w) = false /\
  animationSpeed (pollEvents events w) = animationSpeed w.
Proof.
  unfold pollEvents, no_pause_toggle. intros Ha Hev. revert w Ha.
  induction Hev as [|e events He Hev IH]; intros w Ha; simpl; [auto|].
  destruct (keyCallback_paused (ev_key e) (ev_scancode e) (ev_action e) (ev_mods e)
              w Ha He) as (Ha' & Hs').
  destruct (IH _ Ha') as (Ha'' & Hs''). split; congruence.
Qed.

(** ** Frames *)

Lemma only_reset_refl (w w' : World) : bodies w' = bodies w -> only_reset w w'.
Proof. intros Hb j p Hj. exists p. rewrite Hb. auto. Qed.

Lemma only_reset_trans (w1 w2 w3 : World) :
  only_reset w1 w2 -> only_reset w2 w3 -> only_reset w1 w3.
Proof.
  intros H12 H23 j p Hj.
  destruct (H12 j p Hj) as (p2 & Hp2 & Hor2).
  destruct (H23 j p2 Hp2) as (p3 & Hp3 & Hor3).
  exists p3; split; [exact Hp3|].
  destruct Hor2 as [->| ->], Hor3 as [->| ->]; auto using resetOrientation_idem.
Qed.

Lemma resetOrientationAt_only_reset (this : nat) (w w' : World) :
  resetOrientationAt this w = Some w' ->
  only_reset w w' /\ animationSpeed w' = animationSpeed w /\
  isAnimating w' = isAnimating w /\ lastUpdateTime w' = lastUpdateTime w.
Proof.
  intros Hr. split.
  - intros j p Hj. rewrite (resetOrientationAt_lookup _ _ _ _ _ Hr Hj).
    eexists; split; [reflexivity|]. destruct (decide (j = this)); auto.
  - destruct (resetOrientationAt_Some _ _ _ Hr) as (p & _ & ->).
    repeat split; reflexivity.
Qed.

Lemma serviceRestart_only_reset (w w' : World) :
  serviceRestart w = Some w' ->
  only_reset w w' /\ animationSpeed w' = animationSpeed w /\
  isAnimating w' = isAnimating w /\ lastUpdateTime w' = lastUpdateTime w.
Proof.
  unfold serviceRestart. destruct (restartAnimation w).
  - destruct (resetOrientationAt sun w) as [w1|] eqn:H1; simpl; [|discriminate].
    destruct (resetOrientationAt earth w1) as [w2|] eqn:H2; simpl; [|discriminate].
    destruct (resetOrientationAt moon w2) as [w3|] eqn:H3; simpl; [|discriminate].
    intros [= <-].
    destruct (resetOrientationAt_only_reset _ _ _ H1) as (Ho1 & Hs1 & Ha1 & Hl1).
    destruct (resetOrientationAt_only_reset _ _ _ H2) as (Ho2 & Hs2 & Ha2 & Hl2).
    destruct (resetOrientationAt_only_reset _ _ _ H3) as (Ho3 & Hs3 & Ha3 & Hl3).
    split; [|simpl; repeat split; congruence].
    eapply only_reset_trans; [exact Ho1|].
    eapply only_reset_trans; [exact Ho2|].
    eapply only_reset_trans; [exact Ho3|].
    apply only_reset_refl. reflexivity.
  - intros [= <-]. split; [apply only_reset_refl; reflexivity|auto].
Qed.

Lemma serviceRestart_no_request (w : World) :
  restartAnimation w = false -> serviceRestart w = Some w.
Proof. intros H. unfold serviceRestart. rewrite H. reflexivity. Qed.

Lemma animateAll_lookup (t1 t2 t3 : double) (w w' : World) (j : nat) (p : Planet) :
  animateAll t1 t2 t3 w = Some w' -> bodies w !! j = Some p ->
  exists p', bodies w' !! j = Some p' /\ same_frozen p p'.
Proof.
  unfold animateAll. destruct (isAnimating w).
  - destruct (animate t1 sun w) as [w1|] eqn:H1; simpl; [|discriminate].
    destruct (animate t2 earth w1) as [w2|] eqn:H2; simpl; [|discriminate].
    intros H3 Hj.
    destruct (animate_lookup _ _ _ _ _ _ H1 Hj) as (p1 & Hp1 & Hf1 & _).
    destruct (animate_lookup _ _ _ _ _ _ H2 Hp1) as (p2 & Hp2 & Hf2 & _).
    destruct (animate_lookup _ _ _ _ _ _ H3 Hp2) as (p3 & Hp3 & Hf3 & _).
    exists p3; split; [exact Hp3|].
    eauto using same_frozen_trans.
  - intros [= <-] Hj. exists p; split; [exact Hj|apply same_frozen_refl].
Qed.

(** A frame that starts paused and whose events do not press the space bar:
    no [animate] runs, the stamp and the speed stay, and every planet is as
    it was or reset. *)
Lemma frame_paused (i : FrameInput) (w w' : World) :
  isAnimating w = false -> no_pause_toggle (fi_events i) -> frame i w = Some w' ->
  isAnimating w' = false /\ lastUpdateTime w' = lastUpdateTime w /\
  animationSpeed w' = animationSpeed w /\ only_reset w w'.
Proof.
  intros Ha Hev. unfold frame.
  destruct (pollEvents_paused _ _ Ha Hev) as (Ha1 & Hs1).
  destruct (pollEvents_keeps (fi_events i) w) as (Hb1 & Hl1 & _).
  destruct (serviceRestart (pollEvents (fi_events i) w)) as [w2|] eqn:H2; simpl;
    [|discriminate].
  destruct (serviceRestart_only_reset _ _ H2) as (Ho2 & Hs2 & Ha2 & Hl2).
  unfold animateAll. rewrite Ha2, Ha1. intros [= <-].
  repeat split; try congruence.
  eapply only_reset_trans; [apply only_reset_refl, Hb1|exact Ho2].
Qed.

Lemma run_paused (frames : list FrameInput) (w w' : World) :
  isAnimating w = false -> Forall (fun i => no_pause_toggle (fi_events i)) frames ->
  run frames w = Some w' ->
  isAnimating w' = false /\ lastUpdateTime w' = lastUpdateTime w /\
  animationSpeed w' = animationSpeed w /\ only_reset w w'.
Proof.
  intros Ha Hev. revert w Ha.
  induction Hev as [|i frames Hi Hev IH]; intros w Ha; simpl.
  - intros [= <-]. repeat split; try assumption. apply only_reset_refl; reflexivity.
  - destruct (frame i w) as [w1|] eqn:H1; simpl; [|discriminate].
    intros Hrun.
    destruct (frame_paused _ _ _ Ha Hi H1) as (Ha1 & Hl1 & Hs1 & Ho1).
    destruct (IH _ Ha1 Hrun) as (Ha2 & Hl2 & Hs2 & Ho2).
    repeat split; try congruence. eapply only_reset_trans; eassumption.
Qed.

Lemma animate_buffers (now : double) (this : nat) (w w' : World) (p : Planet) :
  bodies w !! this = Some p -> animate now this w = Some w' ->
  exists p', bodies w' !! this = Some p' /\
    vertBuffer (gpuGeom p') = verts (cpuGeom p) /\
    texCoordBuffer (gpuGeom p') = texCoords (cpuGeom p) /\
    normalBuffer (gpuGeom p') = normals (cpuGeom p') /\
    normals (cpuGeom p') = map (getNormal p') (verts (cpuGeom p)).
Proof.
  intros Hp Ha. destruct (animate_Some _ _ _ _ Ha) as (p0 & q & Hp0 & Hq & ->).
  rewrite Hp in Hp0; injection Hp0 as <-.
  destruct (updateOrbitalRotation_Some _ _ _ Hq) as (pos & _ & ->).
  eexists; split.
  { simpl. apply list_lookup_insert_eq. eapply lookup_lt_Some, Hp. }
  unfold updateTranslationMatrix; simpl.
  destruct (parent p); repeat split; reflexivity.
Qed.

(** C7: an [animate] call leaves the vertex positions, the texture
    coordinates and [rotationAxis] of every planet as they were (and every
    field other than the normals, the two angles, the position and the three
    matrices; a planet other than the animated one is not touched at all, and
    the vertex and texture buffers uploaded for the animated one hold the same
    data again); so does a whole frame of the render loop in which no reset is
    serviced. *)
Theorem animate_mutates_only_motion :
  (forall (now : double) (this : nat) (w w' : World) (j : nat) (p : Planet),
     animate now this w = Some w' -> bodies w !! j = Some p ->
     exists p', bodies w' !! j = Some p' /\
       verts (cpuGeom p') = verts (cpuGeom p) /\
       texCoords (cpuGeom p') = texCoords (cpuGeom p) /\
       rotationAxis p' = rotationAxis p /\
       same_frozen p p' /\ (j <> this -> p' = p) /\
       (j = this ->
        vertBuffer (gpuGeom p') = verts (cpuGeom p) /\
        texCoordBuffer (gpuGeom p') = texCoords (cpuGeom p))) /\
  (forall (i : FrameInput) (w w' : World) (j : nat) (p : Planet),
     restartAnimation (pollEvents (fi_events i) w) = false ->
     frame i w = Some w' -> bodies w !! j = Some p ->
     exists p', bodies w' !! j = Some p' /\
       verts (cpuGeom p') = verts (cpuGeom p) /\
       texCoords (cpuGeom p') = texCoords (cpuGeom p) /\
       rotationAxis p' = rotationAxis p /\
       same_frozen p p').
Proof.
  split.
  - intros now this w w' j p Ha Hj.
    destruct (animate_lookup _ _ _ _ _ _ Ha Hj) as (p' & Hp' & Hf & Hne).
    exists p'. pose proof Hf as (_ & _ & _ & _ & _ & _ & _ & Hax & Hv & Ht & _).
    do 6 (split; [assumption|]).
    intros ->. destruct (animate_buffers _ _ _ _ _ Hj Ha) as (q & Hq & Hvb & Htb & _).
    rewrite Hp' in Hq; injection Hq as <-. auto.
  - intros i w w' j p Hr Hf Hj. unfold frame in Hf.
    rewrite (serviceRestart_no_request _ Hr) in Hf. simpl in Hf.
    destruct (pollEvents_keeps (fi_events i) w) as (Hb & _).
    rewrite <- Hb in Hj.
    destruct (animateAll_lookup _ _ _ _ _ _ _ Hf Hj) as (p' & Hp' & Hfz).
    exists p'. pose proof Hfz as (_ & _ & _ & _ & _ & _ & _ & Hax & Hv & Ht & _).
    auto 10.
Qed.

(** C9: [resetOrientation] leaves [position] and [translationMatrix] as they
    were while it sets both angles to [PI / 2] and recomputes the rotation
    matrices and [rotationAxis]; and a frame that services a reset while the
    animation is paused moves no planet. *)
Theorem resetOrientation_keeps_position :
  (forall p : Planet,
     position (resetOrientation p) = position p /\
     translationMatrix (resetOrientation p) = translationMatrix p /\
     orbitalAngle (resetOrientation p) = half_PI /\
     axialAngle (resetOrientation p) = half_PI /\
     axialRotationMatrix (resetOrientation p) =
       rotate (modelMatrix p) (orbitalInclination p + half_PI + axialTilt p)%f32
         xAxisOfRotation /\
     negAxialRotationMatrix (resetOrientation p) = modelMatrix p /\
     rotationAxis (resetOrientation p) =
       vec3_of_vec4
         (mat4_mul_vec4 (axialRotationMatrix (resetOrientation p)) yAxisMatrix)) /\
  (forall (i : FrameInput) (w w' : World) (j : nat) (p : Planet),
     isAnimating (pollEvents (fi_events i) w) = false ->
     frame i w = Some w' -> bodies w !! j = Some p ->
     exists p', bodies w' !! j = Some p' /\
       position p' = position p /\ translationMatrix p' = translationMatrix p).
Proof.
  split.
  - intros p. repeat split; reflexivity.
  - intros i w w' j p Ha Hf Hj. unfold frame in Hf.
    destruct (serviceRestart (pollEvents (fi_events i) w)) as [w2|] eqn:H2;
      simpl in Hf; [|discriminate].
    destruct (serviceRestart_only_reset _ _ H2) as (Ho & _ & Ha2 & _).
    unfold animateAll in Hf. rewrite Ha2, Ha in Hf. injection Hf as <-.
    destruct (pollEvents_keeps (fi_events i) w) as (Hb & _).
    rewrite <- Hb in Hj.
    destruct (Ho j p Hj) as (p' & Hp' & [->| ->]); exists p' || eexists;
      (split; [eassumption|split; reflexivity]).
Qed.


(** ** The sphere mesh *)

Lemma getVertexCoord_sphere_point (p : Planet) (u v : float) :
  getVertexCoord p u v = sphere_point (radius p) (u, v).
Proof. reflexivity. Qed.

Lemma getTextureCoord_sphere_texCoord (u v : float) :
  getTextureCoord u v = sphere_texCoord (u, v).
Proof. reflexivity. Qed.

Lemma emit_nil (p : Planet) : emit [] p = p.
Proof.
  destruct p as [? ? ? ? ? ? ? ? ? ? ? [vs ts ns] ? ? ? ? ? ?].
  unfold emit; simpl. rewrite !app_nil_r. reflexivity.
Qed.

Lemma emit_emit (a b : list (float * float)) (p : Planet) :
  emit b (emit a p) = emit (a ++ b) p.
Proof.
  unfold emit; simpl. rewrite !map_app, !app_assoc. reflexivity.
Qed.

Lemma drawPoint_emit (phi theta : float) (p : Planet) :
  drawPoint phi theta p = emit [(phi, theta)] p.
Proof. reflexivity. Qed.

Lemma drawCell_emit (inc u v : float) (p : Planet) :
  drawCell inc u v p = emit (emitted_corners inc (u, v)) p.
Proof.
  unfold drawCell, emitted_corners.
  destruct splices_backslash_space; rewrite !drawPoint_emit, !emit_emit; reflexivity.
Qed.

Lemma sphere_loop_v_emit (fuel : nat) (inc u v : float) (p : Planet) :
  sphere_loop_v fuel inc u v p =
  (fun vs => emit (flat_map (emitted_corners inc) (map (pair u) vs)) p) <$>
    frange fuel two_PI inc v.
Proof.
  revert v p. induction fuel as [|n IH]; intros v p; simpl.
  - destruct (v <=? two_PI)%f32; simpl; [reflexivity|]. rewrite emit_nil; reflexivity.
  - destruct (v <=? two_PI)%f32; simpl; [|rewrite emit_nil; reflexivity].
    rewrite IH, drawCell_emit.
    destruct (frange n two_PI inc (v + inc)%f32) as [vs|]; simpl; [|reflexivity].
    rewrite emit_emit. reflexivity.
Qed.

Lemma sphere_loop_u_emit (fuel fuel_v : nat) (inc u : float) (p : Planet) :
  sphere_loop_u fuel fuel_v inc u p =
  (fun cells => emit (flat_map (emitted_corners inc) cells) p) <$>
    sphere_grid_from fuel fuel_v inc u.
Proof.
  revert u p. induction fuel as [|n IH]; intros u p; simpl.
  - destruct (u <=? PI)%f32; simpl; [reflexivity|]. rewrite emit_nil; reflexivity.
  - destruct (u <=? PI)%f32; simpl; [|rewrite emit_nil; reflexivity].
    rewrite sphere_loop_v_emit.
    destruct (frange fuel_v two_PI inc F32.zero) as [vs|]; simpl; [|reflexivity].
    rewrite IH.
    destruct (sphere_grid_from n fuel_v inc (u + inc)%f32) as [rest|]; simpl;
      [|reflexivity].
    rewrite emit_emit, flat_map_app. reflexivity.
Qed.

(** The grid is the product of the two ranges: every [u] of the polar range
    with every [v] of the azimuth range. *)
Lemma sphere_grid_from_product (fuel fuel_v : nat) (inc u : float)
    (cells : list (float * float)) :
  sphere_grid_from fuel fuel_v inc u = Some cells ->
  exists us, frange fuel PI inc u = Some us /\
    (us = [] /\ cells = [] \/
     exists vs, frange fuel_v two_PI inc F32.zero = Some vs /\
       cells = us ≫= (fun u => map (pair u) vs)).
Proof.
  revert u cells. induction fuel as [|n IH]; intros u cells; simpl.
  - destruct (u <=? PI)%f32; [discriminate|]. intros [= <-]. exists []; auto.
  - destruct (u <=? PI)%f32; [|intros [= <-]; exists []; auto].
    destruct (frange fuel_v two_PI inc F32.zero) as [vs|] eqn:Hvs; simpl;
      [|discriminate].
    destruct (sphere_grid_from n fuel_v inc (u + inc)%f32) as [rest|] eqn:Hrest;
      simpl; [|discriminate].
    intros [= <-]. destruct (IH _ _ Hrest) as (us & Hus & Hcases).
    rewrite Hus; simpl. exists (u :: us); split; [reflexivity|].
    right. exists vs; split; [reflexivity|]. simpl.
    destruct Hcases as [[-> ->]|(vs' & [= <-] & ->)]; reflexivity.
Qed.

(** The mesh [generateSphereWith] leaves, whatever the planet held before. *)
Lemma generateSphereWith_mesh (inc : float) (fuel : nat) (p : Planet) :
  (fun p' => (verts (cpuGeom p'), texCoords (cpuGeom p'))) <$>
    generateSphereWith inc fuel p =
  (fun cells =>
     (map (sphere_point (radius p)) (flat_map (emitted_corners inc) cells),
      map sphere_texCoord (flat_map (emitted_corners inc) cells))) <$>
    sphere_grid fuel inc.
Proof.
  unfold generateSphereWith, sphere_grid. rewrite sphere_loop_u_emit.
  destruct (sphere_grid_from fuel fuel inc F32.zero) as [cells|]; reflexivity.
Qed.

Lemma sphere_grid_uvInc :
  exists cells, sphere_grid 63 uvInc = Some cells /\ length cells = 2016%nat.
Proof. eexists; split; vm_compute; reflexivity. Qed.

Lemma cell_corners_length (inc : float) (cells : list (float * float)) :
  length (flat_map (cell_corners inc) cells) = (6 * length cells)%nat.
Proof.
  induction cells as [|[u v] l IHl]; [reflexivity|].
  cbn [flat_map cell_corners length app]. rewrite IHl. lia.
Qed.

Lemma emitted_corners_length (inc : float) (cells : list (float * float)) :
  length (flat_map (emitted_corners inc) cells) =
  (corners_per_cell * length cells)%nat.
Proof.
  unfold emitted_corners, corners_per_cell.
  induction cells as [|[u v] l IHl]; [simpl; lia|].
  cbn [flat_map]. rewrite length_app, IHl.
  destruct splices_backslash_space; cbn [cell_corners tail length]; lia.
Qed.

(** When the grid is reached within the bound, so is the mesh; the planet
    changes in its two geometry buffers only. *)
Lemma generateSphereWith_Some (inc : float) (fuel : nat) (p : Planet)
    (cells : list (float * float)) :
  sphere_grid fuel inc = Some cells ->
  exists p', generateSphereWith inc fuel p = Some p' /\
    verts (cpuGeom p') =
      map (sphere_point (radius p)) (flat_map (emitted_corners inc) cells) /\
    texCoords (cpuGeom p') = map sphere_texCoord (flat_map (emitted_corners inc) cells) /\
    same_frozen (set_cpuGeom (cpuGeom p') p) p' /\
    position p' = position p /\ orbitalAngle p' = orbitalAngle p /\
    axialAngle p' = axialAngle p /\ rotationAxis p' = rotationAxis p.
Proof.
  intros Hg. unfold generateSphereWith. rewrite sphere_loop_u_emit.
  fold (sphere_grid fuel inc). rewrite Hg.
  eexists; split; [reflexivity|]. repeat split; reflexivity.
Qed.

Lemma generateSphere_total (p : Planet) :
  exists p', generateSphere 63 p = Some p' /\
    length (verts (cpuGeom p')) = (corners_per_cell * 2016)%nat /\
    length (texCoords (cpuGeom p')) = (corners_per_cell * 2016)%nat.
Proof.
  destruct sphere_grid_uvInc as (cells & Hg & Hlen).
  destruct (generateSphereWith_Some uvInc 63 p cells Hg) as (p' & Hp' & Hv & Ht & _).
  exists p'; split; [exact Hp'|].
  rewrite Hv, Ht, !length_map, emitted_corners_length, Hlen. split; reflexivity.
Qed.

Lemma frange_zero_PI_nonempty (fuel : nat) (inc : float) :
  frange fuel PI inc F32.zero <> Some [].
Proof. destruct fuel; simpl; [discriminate|]. destruct (frange _ _ _ _); discriminate. Qed.

(** The grid is every [u] of the polar range with every [v] of the azimuth
    range. *)
Lemma sphere_grid_product (inc : float) (fuel : nat) (cells : list (float * float)) :
  sphere_grid fuel inc = Some cells ->
  exists us vs,
    frange fuel PI inc F32.zero = Some us /\
    frange fuel two_PI inc F32.zero = Some vs /\
    cells = us ≫= (fun u => map (pair u) vs).
Proof.
  intros Hc.
  destruct (sphere_grid_from_product _ _ _ _ _ Hc) as (us & Hus & Hcases).
  destruct Hcases as [[-> _]|(vs & Hvs & ->)].
  - exfalso. exact (frange_zero_PI_nonempty _ _ Hus).
  - exists us, vs. auto.
Qed.

(** C5: the vertex and texture-coordinate sequences the generator leaves
    depend on the radius and the step only, not on what the planet held
    before: two runs with the same radius and step leave the same sequences
    (or both do not end within the bound); and for any two radii the number of
    vertices and of texture coordinates is the same. *)
Theorem generateSphere_deterministic (inc : float) (fuel : nat) (p1 p2 : Planet) :
  (radius p1 = radius p2 ->
   (fun p' => (verts (cpuGeom p'), texCoords (cpuGeom p'))) <$>
     generateSphereWith inc fuel p1 =
   (fun p' => (verts (cpuGeom p'), texCoords (cpuGeom p'))) <$>
     generateSphereWith inc fuel p2) /\
  (fun p' => (length (verts (cpuGeom p')), length (texCoords (cpuGeom p')))) <$>
    generateSphereWith inc fuel p1 =
  (fun p' => (length (verts (cpuGeom p')), length (texCoords (cpuGeom p')))) <$>
    generateSphereWith inc fuel p2.
Proof.
  pose proof (generateSphereWith_mesh inc fuel p1) as H1.
  pose proof (generateSphereWith_mesh inc fuel p2) as H2.
  split.
  - intros Hr. rewrite H1, H2, Hr. reflexivity.
  - destruct (generateSphereWith inc fuel p1) as [q1|],
      (generateSphereWith inc fuel p2) as [q2|],
      (sphere_grid fuel inc) as [cells|]; simpl in *; try discriminate;
      [|reflexivity].
    injection H1 as -> ->. injection H2 as -> ->.
    rewrite !length_map. reflexivity.
Qed.

(** ** The deltas within one frame *)

(** In one frame each [animate] call measures from the stamp the call before
    it left: the sun from the last frame, the earth from the sun's call, the
    moon from the earth's call. *)
Lemma animateAll_deltas (t1 t2 t3 : double) (w : World) (ps pe pm : Planet) :
  isAnimating w = true -> parents_valid w ->
  bodies w !! sun = Some ps -> bodies w !! earth = Some pe ->
  bodies w !! moon = Some pm ->
  exists w' ps' pe' pm',
    animateAll t1 t2 t3 w = Some w' /\
    bodies w' !! sun = Some ps' /\ bodies w' !! earth = Some pe' /\
    bodies w' !! moon = Some pm' /\
    axialAngle ps' =
      (axialAngle ps + rotationSpeed ps * animationSpeed w *
       F32.round (F64.sub t1 (lastUpdateTime w)))%f32 /\
    orbitalAngle ps' =
      (orbitalAngle ps + orbitalSpeed ps * animationSpeed w *
       F32.round (F64.sub t1 (lastUpdateTime w)))%f32 /\
    axialAngle pe' =
      (axialAngle pe + rotationSpeed pe * animationSpeed w *
       F32.round (F64.sub t2 t1))%f32 /\
    orbitalAngle pe' =
      (orbitalAngle pe + orbitalSpeed pe * animationSpeed w *
       F32.round (F64.sub t2 t1))%f32 /\
    axialAngle pm' =
      (axialAngle pm + rotationSpeed pm * animationSpeed w *
       F32.round (F64.sub t3 t2))%f32 /\
    orbitalAngle pm' =
      (orbitalAngle pm + orbitalSpeed pm * animationSpeed w *
       F32.round (F64.sub t3 t2))%f32.
Proof.
  intros Ha Hv Hs He Hm. unfold animateAll. rewrite Ha.
  destruct (animate_total t1 sun w Hv (mk_is_Some _ _ Hs)) as [w1 H1].
  rewrite H1; simpl.
  destruct (animate_angles _ _ _ _ _ Hs H1) as (ps' & Hs1 & Hsa & Hso).
  destruct (animate_globals _ _ _ _ H1) as (Hsp1 & _ & _ & Hl1 & _).
  destruct (animate_lookup _ _ _ _ _ _ H1 He) as (pe1 & He1 & _ & Hne1).
  rewrite (Hne1 ltac:(discriminate)) in He1.
  destruct (animate_lookup _ _ _ _ _ _ H1 Hm) as (pm1 & Hm1 & _ & Hnm1).
  rewrite (Hnm1 ltac:(discriminate)) in Hm1.
  pose proof (animate_parents_valid _ _ _ _ H1 Hv) as Hv1.
  destruct (animate_total t2 earth w1 Hv1 (mk_is_Some _ _ He1)) as [w2 H2].
  rewrite H2; simpl.
  destruct (animate_angles _ _ _ _ _ He1 H2) as (pe' & He2 & Hea & Heo).
  destruct (animate_globals _ _ _ _ H2) as (Hsp2 & _ & _ & Hl2 & _).
  destruct (animate_lookup _ _ _ _ _ _ H2 Hs1) as (ps2 & Hs2 & _ & Hns2).
  rewrite (Hns2 ltac:(discriminate)) in Hs2.
  destruct (animate_lookup _ _ _ _ _ _ H2 Hm1) as (pm2 & Hm2 & _ & Hnm2).
  rewrite (Hnm2 ltac:(discriminate)) in Hm2.
  pose proof (animate_parents_valid _ _ _ _ H2 Hv1) as Hv2.
  destruct (animate_total t3 moon w2 Hv2 (mk_is_Some _ _ Hm2)) as [w3 H3].
  destruct (animate_angles _ _ _ _ _ Hm2 H3) as (pm' & Hm3 & Hma & Hmo).
  destruct (animate_lookup _ _ _ _ _ _ H3 Hs2) as (ps3 & Hs3 & _ & Hns3).
  rewrite (Hns3 ltac:(discriminate)) in Hs3.
  destruct (animate_lookup _ _ _ _ _ _ H3 He2) as (pe3 & He3 & _ & Hne3).
  rewrite (Hne3 ltac:(discriminate)) in He3.
  exists w3, ps', pe', pm'.
  rewrite Hsp1, Hl1 in Hea, Heo. rewrite Hsp2, Hsp1, Hl2 in Hma, Hmo.
  repeat split; assumption.
Qed.

(** *** The state [main] starts the render loop in *)

Lemma option_bind_Some_eq {A B : Type} (f : A -> option B) (x : A) :
  Some x ≫= f = f x.
Proof. reflexivity. Qed.

Lemma Planet_new_Some (fuel : nat) (w : World) (actualRadius : float)
    (texturePath : string) (axialSpeed orbitSpeed orbitalIncl tilt : float)
    (parentPtr : option nat) (actualDistanceFromParent : float) :
  is_Some (sphere_grid fuel uvInc) ->
  (forall j, parentPtr = Some j -> is_Some (bodies w !! j)) ->
  exists p,
    Planet_new fuel w actualRadius texturePath axialSpeed orbitSpeed orbitalIncl tilt
      parentPtr actualDistanceFromParent = Some p /\
    parent p = parentPtr /\ rotationSpeed p = axialSpeed /\
    orbitalSpeed p = orbitSpeed /\
    axialAngle p = half_PI /\ orbitalAngle p = half_PI.
Proof.
  intros [cells Hg] Hpar. unfold Planet_new. cbv zeta.
  match goal with |- context [updateLocation w ?q] =>
    destruct (updateLocation_total w q Hpar) as [p2 Hp2];
    rewrite Hp2; destruct (updateLocation_Some _ _ _ Hp2) as [pos ->]
  end.
  rewrite option_bind_Some_eq; cbv beta. unfold generateSphere.
  match goal with |- context [generateSphereWith uvInc fuel ?q] =>
    destruct (generateSphereWith_Some uvInc fuel q cells Hg)
      as (p' & Hp' & _ & _ & Hfro & _ & Hor & Hax & _)
  end.
  exists p'; split; [exact Hp'|].
  destruct Hfro as (_ & _ & _ & Hos & Hrs & _ & Hpa & _).
  rewrite Hpa, Hrs, Hos, Hor, Hax.
  unfold updateTranslationMatrix; cbn [parent set_position resetOrientation
    set_orbitalAngle set_axialAngle set_axialRotationMatrix
    set_negAxialRotationMatrix set_rotationAxis].
  destruct parentPtr; repeat split; reflexivity.
Qed.

Lemma main_init_Some (fuel : nat) (t0 : double) :
  is_Some (sphere_grid fuel uvInc) ->
  exists ps pe pm pb,
    main_init fuel t0 =
      Some {| bodies := [ps; pe; pm; pb]; animationSpeed := F32.of_Z 1;
              isAnimating := true; restartAnimation := false;
              lastUpdateTime := t0; currUpdateTime := S754_zero false |} /\
    (parent ps = None /\ rotationSpeed ps = sunRotationSpeed /\
     orbitalSpeed ps = F32.zero /\ axialAngle ps = half_PI /\
     orbitalAngle ps = half_PI) /\
    (parent pe = Some sun /\ rotationSpeed pe = earthRotationSpeed /\
     orbitalSpeed pe = earthOrbitSpeed /\ axialAngle pe = half_PI /\
     orbitalAngle pe = half_PI) /\
    (parent pm = Some earth /\ rotationSpeed pm = moonRotationSpeed /\
     orbitalSpeed pm = moonOrbitSpeed /\ axialAngle pm = half_PI /\
     orbitalAngle pm = half_PI) /\
    parent pb = None.
Proof.
  intros Hg. unfold main_init. cbv zeta.
  match goal with |- context [Planet_new fuel ?w ?a ?b ?c ?d ?e ?f None ?h] =>
    destruct (Planet_new_Some fuel w a b c d e f None h Hg ltac:(discriminate))
      as (ps & Hps & Fs); rewrite Hps
  end.
  rewrite option_bind_Some_eq; cbv beta.
  match goal with |- context [Planet_new fuel ?w ?a ?b ?c ?d ?e ?f (Some sun) ?h] =>
    destruct (Planet_new_Some fuel w a b c d e f (Some sun) h Hg) as (pe & Hpe & Fe);
      [intros j [= <-]; cbn [bodies set_bodies app]; eexists; reflexivity
      |rewrite Hpe]
  end.
  rewrite option_bind_Some_eq; cbv beta.
  match goal with |- context [Planet_new fuel ?w ?a ?b ?c ?d ?e ?f (Some earth) ?h] =>
    destruct (Planet_new_Some fuel w a b c d e f (Some earth) h Hg)
      as (pm & Hpm & Fm);
      [intros j [= <-]; cbn [bodies set_bodies app]; eexists; reflexivity
      |rewrite Hpm]
  end.
  rewrite option_bind_Some_eq; cbv beta.
  match goal with |- context [Planet_new fuel ?w ?a ?b ?c ?d ?e ?f None ?h] =>
    destruct (Planet_new_Some fuel w a b c d e f None h Hg ltac:(discriminate))
      as (pb & Hpb & Fb); rewrite Hpb
  end.
  rewrite option_bind_Some_eq; cbv beta.
  exists ps, pe, pm, pb. split; [reflexivity|].
  destruct Fb as (Fb & _). exact (conj Fs (conj Fe (conj Fm Fb))).
Qed.

Lemma main_init_parents_valid (ps pe pm pb : Planet) (s : float) (a r : bool)
    (t c : double) :
  parent ps = None -> parent pe = Some sun -> parent pm = Some earth ->
  parent pb = None ->
  parents_valid
    {| bodies := [ps; pe; pm; pb]; animationSpeed := s; isAnimating := a;
       restartAnimation := r; lastUpdateTime := t; currUpdateTime := c |}.
Proof.
  intros Hs He Hm Hb i p j Hi Hj. cbn [bodies] in *.
  destruct i as [|[|[|[|i]]]]; cbn in Hi; try discriminate;
    injection Hi as <-; congruence || (assert (j = sun \/ j = earth) as [-> | ->]
      by (rewrite ?He, ?Hm in Hj; injection Hj as <-; auto); eexists; reflexivity).
Qed.

(** C1: the bodies do not get the same delta within a frame.  The program
    started at clock reading 10, and its first frame read the clock at 10.5 in
    the sun's [animate], at 10.5 + 1/128 in the earth's and at 10.5 + 1/64 in
    the moon's.  The sun's angle advanced by its rate times the frame's delta
    1/2; the earth's and the moon's angles advanced by their rates times 1/128,
    the time since the call before, and not by their rates times 1/2. *)
Theorem animate_deltas_differ :
  exists w0 w1 ps pe pm,
    main_init 63 (F64.of_Z 10) = Some w0 /\
    frame (mkFrameInput [] (F64.dyadic 21 (-1)) (F64.dyadic 1345 (-7))
             (F64.dyadic 673 (-6))) w0 = Some w1 /\
    bodies w1 !! sun = Some ps /\ bodies w1 !! earth = Some pe /\
    bodies w1 !! moon = Some pm /\
    axialAngle ps =
      (half_PI + sunRotationSpeed * F32.of_Z 1 * F32.dyadic 1 (-1))%f32 /\
    axialAngle pe =
      (half_PI + earthRotationSpeed * F32.of_Z 1 * F32.dyadic 1 (-7))%f32 /\
    orbitalAngle pe =
      (half_PI + earthOrbitSpeed * F32.of_Z 1 * F32.dyadic 1 (-7))%f32 /\
    axialAngle pm =
      (half_PI + moonRotationSpeed * F32.of_Z 1 * F32.dyadic 1 (-7))%f32 /\
    orbitalAngle pm =
      (half_PI + moonOrbitSpeed * F32.of_Z 1 * F32.dyadic 1 (-7))%f32 /\
    axialAngle pe <>
      (half_PI + earthRotationSpeed * F32.of_Z 1 * F32.dyadic 1 (-1))%f32 /\
    orbitalAngle pe <>
      (half_PI + earthOrbitSpeed * F32.of_Z 1 * F32.dyadic 1 (-1))%f32 /\
    axialAngle pm <>
      (half_PI + moonRotationSpeed * F32.of_Z 1 * F32.dyadic 1 (-1))%f32 /\
    orbitalAngle pm <>
      (half_PI + moonOrbitSpeed * F32.of_Z 1 * F32.dyadic 1 (-1))%f32.
Proof.
  destruct (main_init_Some 63 (F64.of_Z 10))
    as (ps & pe & pm & pb & Hinit & Fs & Fe & Fm & Fb).
  { destruct sphere_grid_uvInc as (cells & Hc & _). exists cells. exact Hc. }
  destruct Fs as (Hps & Hrs & _ & Has & _).
  destruct Fe as (Hpe & Hre & Hoe & Hae & Hoae).
  destruct Fm as (Hpm & Hrm & Hom & Ham & Hoam).
  set (w0 := {| bodies := [ps; pe; pm; pb]; animationSpeed := F32.of_Z 1;
                isAnimating := true; restartAnimation := false;
                lastUpdateTime := F64.of_Z 10;
                currUpdateTime := S754_zero false |}) in *.
  destruct (animateAll_deltas (F64.dyadic 21 (-1)) (F64.dyadic 1345 (-7))
              (F64.dyadic 673 (-6)) w0 ps pe pm eq_refl
              (main_init_parents_valid _ _ _ _ _ _ _ _ _ Hps Hpe Hpm Fb)
              eq_refl eq_refl eq_refl)
    as (w1 & ps' & pe' & pm' & Hall & Hs1 & He1 & Hm1 &
        Hsa & _ & Hea & Heo & Hma & Hmo).
  assert (D1 : F32.round (F64.sub (F64.dyadic 21 (-1)) (lastUpdateTime w0)) =
               F32.dyadic 1 (-1)) by (vm_compute; reflexivity).
  assert (D2 : F32.round (F64.sub (F64.dyadic 1345 (-7)) (F64.dyadic 21 (-1))) =
               F32.dyadic 1 (-7)) by (vm_compute; reflexivity).
  assert (D3 : F32.round (F64.sub (F64.dyadic 673 (-6)) (F64.dyadic 1345 (-7))) =
               F32.dyadic 1 (-7)) by (vm_compute; reflexivity).
  change (animationSpeed w0) with (F32.of_Z 1) in *.
  rewrite D1, Has, Hrs in Hsa.
  rewrite D2, Hae, Hre in Hea. rewrite D2, Hoae, Hoe in Heo.
  rewrite D3, Ham, Hrm in Hma. rewrite D3, Hoam, Hom in Hmo.
  exists w0, w1, ps', pe', pm'.
  split; [exact Hinit|]. split.
  { unfold frame. cbn [fi_events fi_t_sun fi_t_earth fi_t_moon pollEvents fold_left].
    rewrite serviceRestart_no_request by reflexivity.
    rewrite option_bind_Some_eq. exact Hall. }
  do 3 (split; [assumption|]).
  do 5 (split; [assumption|]).
  rewrite Hea, Heo, Hma, Hmo.
  repeat split; vm_compute; discriminate.
Qed.

End Properties.

(** ** The mesh under the two translations *)

Section MeshTranslations.
Context `{L : MathLib}.

(** C4: the generator is meant to leave six vertices per grid cell, as the
    comments of its two triangles say, each vertex at [(u, v)] with position
    [r (sin u cos v, sin u sin v, cos u)] and texture coordinate
    [(v / 2 pi, u / pi)], over the grid of every [u] up to [PI] with every [v]
    up to [2 PI].  Translated with line 232 spliced, the program leaves only
    the five vertices after the first, [(u + inc, v)], [(u, v + inc)],
    [(u + inc, v)], [(u + inc, v + inc)], [(u, v + inc)], for every cell:
    5 x 32 x 63 vertices with the step of the program, and not 6 x 32 x 63.
    Translated without the splice it leaves the six. *)
Theorem generateSphere_emits (inc : float) (fuel : nat) (p : Planet) :
  ((fun p' => (verts (cpuGeom p'), texCoords (cpuGeom p'))) <$>
     generateSphereWith (T := spliced) inc fuel p =
   (fun cells =>
      (map (sphere_point (radius p))
         (flat_map (fun c => tail (cell_corners inc c)) cells),
       map sphere_texCoord (flat_map (fun c => tail (cell_corners inc c)) cells))) <$>
     sphere_grid fuel inc) /\
  ((fun p' => (verts (cpuGeom p'), texCoords (cpuGeom p'))) <$>
     generateSphereWith (T := unspliced) inc fuel p =
   (fun cells =>
      (map (sphere_point (radius p)) (flat_map (cell_corners inc) cells),
       map sphere_texCoord (flat_map (cell_corners inc) cells))) <$>
     sphere_grid fuel inc) /\
  (forall cells, sphere_grid fuel inc = Some cells ->
     exists us vs,
       frange fuel PI inc F32.zero = Some us /\
       frange fuel two_PI inc F32.zero = Some vs /\
       cells = us ≫= (fun u => map (pair u) vs)) /\
  (exists p', generateSphere (T := spliced) 63 p = Some p' /\
     length (verts (cpuGeom p')) = (5 * (32 * 63))%nat /\
     length (texCoords (cpuGeom p')) = (5 * (32 * 63))%nat /\
     length (verts (cpuGeom p')) <> (6 * (32 * 63))%nat) /\
  (exists p', generateSphere (T := unspliced) 63 p = Some p' /\
     length (verts (cpuGeom p')) = (6 * (32 * 63))%nat /\
     length (texCoords (cpuGeom p')) = (6 * (32 * 63))%nat).
Proof.
  split; [exact (generateSphereWith_mesh (T := spliced) inc fuel p)|].
  split; [exact (generateSphereWith_mesh (T := unspliced) inc fuel p)|].
  split; [apply sphere_grid_product|].
  split.
  - destruct (generateSphere_total (T := spliced) p) as (p' & Hp' & Hv & Ht).
    exists p'. split; [exact Hp'|]. split; [exact Hv|]. split; [exact Ht|].
    rewrite Hv. discriminate.
  - destruct (generateSphere_total (T := unspliced) p) as (p' & Hp' & Hv & Ht).
    exists p'. split; [exact Hp'|]. split; [exact Hv|exact Ht].
Qed.

End MeshTranslations.

(** * Further properties of the render loop *)

Section LoopProperties.
Context `{L : MathLib} `{T : Translation}.

(** ** Lifting a relation between a planet before and after *)

Ltac solve_touched :=
  let x := fresh "x" in
  let Hx := fresh "Hx" in
  intros x Hx; inversion Hx; subst;
  [repeat constructor | match goal with H : _ ∈ [] |- _ => inversion H end].

Section Pointwise.
Variable R : Planet -> Planet -> Prop.
Hypothesis R_refl : forall p, R p p.
Hypothesis R_trans : forall p q r, R p q -> R q r -> R p r.
Hypothesis R_reset : forall p, R p (resetOrientation p).
Hypothesis R_animate :
  forall w p q, updateOrbitalRotation w (updateAxialRotation w p) = Some q -> R p q.

(** [w'] has as many planets as [w], each related to what it was, and those
    at an index outside of [touched] are what they were. *)
Definition related (touched : list nat) (w w' : World) : Prop :=
  length (bodies w') = length (bodies w) /\
  forall j p, bodies w !! j = Some p ->
    exists p', bodies w' !! j = Some p' /\ R p p' /\ (j ∉ touched -> p' = p).

Lemma related_refl (touched : list nat) (w w' : World) :
  bodies w' = bodies w -> related touched w w'.
Proof.
  intros Hb. split; [rewrite Hb; reflexivity|].
  intros j p Hj. exists p. rewrite Hb. auto.
Qed.

Lemma related_trans (touched : list nat) (w1 w2 w3 : World) :
  related touched w1 w2 -> related touched w2 w3 -> related touched w1 w3.
Proof.
  intros [Hl12 H12] [Hl23 H23]. split; [congruence|].
  intros j p Hj.
  destruct (H12 j p Hj) as (p2 & Hp2 & HR2 & Hn2).
  destruct (H23 j p2 Hp2) as (p3 & Hp3 & HR3 & Hn3).
  exists p3. split; [exact Hp3|]. split; [eauto|].
  intros Hj'. rewrite (Hn3 Hj'), (Hn2 Hj'). reflexivity.
Qed.

Lemma related_weaken (t1 t2 : list nat) (w w' : World) :
  t1 ⊆ t2 -> related t1 w w' -> related t2 w w'.
Proof.
  intros Hsub [Hl H]. split; [exact Hl|].
  intros j p Hj. destruct (H j p Hj) as (p' & Hp' & HR & Hn).
  exists p'. split; [exact Hp'|]. split; [exact HR|].
  intros Hj'. apply Hn. intros Hin. apply Hj', Hsub, Hin.
Qed.

Lemma animate_related (now : double) (this : nat) (w w' : World) :
  animate now this w = Some w' -> related [this] w w'.
Proof.
  intros Ha. destruct (animate_Some _ _ _ _ Ha) as (p0 & q & Hp0 & Hq & ->).
  split; [simpl; apply length_insert|].
  intros j p Hj. simpl. destruct (decide (j = this)) as [->|Hne].
  - rewrite Hj in Hp0; injection Hp0 as <-.
    exists q. split; [apply list_lookup_insert_eq; eapply lookup_lt_Some, Hj|].
    split; [eapply R_animate, Hq|].
    intros Hnot. exfalso. apply Hnot. constructor.
  - exists p. split; [rewrite list_lookup_insert_ne by congruence; exact Hj|].
    split; [apply R_refl|reflexivity].
Qed.

Lemma resetOrientationAt_related (this : nat) (w w' : World) :
  resetOrientationAt this w = Some w' -> related [this] w w'.
Proof.
  intros Hr. destruct (resetOrientationAt_Some _ _ _ Hr) as (p0 & Hp0 & ->).
  split; [simpl; apply length_insert|].
  intros j p Hj. simpl. destruct (decide (j = this)) as [->|Hne].
  - rewrite Hj in Hp0; injection Hp0 as <-.
    exists (resetOrientation p).
    split; [apply list_lookup_insert_eq; eapply lookup_lt_Some, Hj|].
    split; [apply R_reset|].
    intros Hnot. exfalso. apply Hnot. constructor.
  - exists p. split; [rewrite list_lookup_insert_ne by congruence; exact Hj|].
    split; [apply R_refl|reflexivity].
Qed.

Lemma serviceRestart_related (w w' : World) :
  serviceRestart w = Some w' -> related [sun; earth; moon] w w'.
Proof.
  unfold serviceRestart. destruct (restartAnimation w).
  - destruct (resetOrientationAt sun w) as [w1|] eqn:H1; simpl; [|discriminate].
    destruct (resetOrientationAt earth w1) as [w2|] eqn:H2; simpl; [|discriminate].
    destruct (resetOrientationAt moon w2) as [w3|] eqn:H3; simpl; [|discriminate].
    intros [= <-].
    eapply related_trans;
      [eapply related_weaken, resetOrientationAt_related, H1; solve_touched|].
    eapply related_trans;
      [eapply related_weaken, resetOrientationAt_related, H2; solve_touched|].
    eapply related_trans;
      [eapply related_weaken, resetOrientationAt_related, H3; solve_touched|].
    apply related_refl. reflexivity.
  - intros [= <-]. apply related_refl. reflexivity.
Qed.

Lemma animateAll_related (t1 t2 t3 : double) (w w' : World) :
  animateAll t1 t2 t3 w = Some w' -> related [sun; earth; moon] w w'.
Proof.
  unfold animateAll. destruct (isAnimating w).
  - destruct (animate t1 sun w) as [w1|] eqn:H1; simpl; [|discriminate].
    destruct (animate t2 earth w1) as [w2|] eqn:H2; simpl; [|discriminate].
    intros H3.
    eapply related_trans;
      [eapply related_weaken, animate_related, H1; solve_touched|].
    eapply related_trans;
      [eapply related_weaken, animate_related, H2; solve_touched|].
    eapply related_weaken, animate_related, H3; solve_touched.
  - intros [= <-]. apply related_refl. reflexivity.
Qed.

Lemma frame_related (i : FrameInput) (w w' : World) :
  frame i w = Some w' -> related [sun; earth; moon] w w'.
Proof.
  unfold frame.
  destruct (serviceRestart (pollEvents (fi_events i) w)) as [w1|] eqn:H1; simpl;
    [|discriminate].
  intros H2.
  eapply related_trans;
    [apply related_refl, (proj1 (pollEvents_keeps (fi_events i) w))|].
  eapply related_trans; [eapply serviceRestart_related, H1|].
  eapply animateAll_related, H2.
Qed.

Lemma run_related (frames : list FrameInput) (w w' : World) :
  run frames w = Some w' -> related [sun; earth; moon] w w'.
Proof.
  revert w. induction frames as [|i frames IH]; intros w; simpl.
  - intros [= <-]. apply related_refl. reflexivity.
  - destruct (frame i w) as [w1|] eqn:H1; simpl; [|discriminate].
    intros Hrun. eapply related_trans; [eapply frame_related, H1|eauto].
Qed.

Lemma related_backward (touched : list nat) (w w' : World) (j : nat) (p' : Planet) :
  related touched w w' -> bodies w' !! j = Some p' ->
  exists p, bodies w !! j = Some p /\ R p p' /\ (j ∉ touched -> p' = p).
Proof.
  intros [Hl H] Hj.
  assert (Hlt : (j < length (bodies w))%nat).
  { rewrite <- Hl. eapply lookup_lt_Some, Hj. }
  apply lookup_lt_is_Some in Hlt as [p Hp].
  destruct (H j p Hp) as (p'' & Hp'' & HR & Hn).
  rewrite Hj in Hp''; injection Hp'' as <-. eauto.
Qed.

End Pointwise.

(** ** The mesh buffers *)

Lemma animate_step_mesh_ok (w : World) (p q : Planet) :
  updateOrbitalRotation w (updateAxialRotation w p) = Some q ->
  mesh_ok p -> mesh_ok q.
Proof.
  intros Hq (_ & _ & _ & _ & Ht).
  destruct (updateOrbitalRotation_Some _ _ _ Hq) as (pos & _ & ->).
  unfold mesh_ok, updateTranslationMatrix; simpl.
  destruct (parent p); simpl; rewrite length_map; auto.
Qed.

Lemma run_mesh_ok (frames : list FrameInput) (w w' : World) :
  Forall mesh_ok (bodies w) -> run frames w = Some w' ->
  Forall mesh_ok (bodies w').
Proof.
  intros Hok Hrun. apply Forall_lookup. intros j p' Hj.
  assert (Hrel : related (fun p q => mesh_ok p -> mesh_ok q) [sun; earth; moon] w w').
  { eapply run_related; [..|exact Hrun]; cbv beta; eauto using animate_step_mesh_ok. }
  destruct (related_backward _ _ _ _ _ _ Hrel Hj) as (p & Hp & HR & _).
  apply HR. eapply Forall_lookup_1; eassumption.
Qed.

(** X4: Through any number of frames of the render loop, whatever the keys, the
    pause and the resets, every planet whose GPU buffers equal its vectors,
    with one normal and one texture coordinate per vertex, stays so, whatever
    the state of the other planets of the table; and the table keeps its
    size. *)
Theorem run_keeps_mesh_ok (frames : list FrameInput) (w w' : World) :
  run frames w = Some w' ->
  length (bodies w') = length (bodies w) /\
  forall (j : nat) (p : Planet),
    bodies w !! j = Some p -> mesh_ok p ->
    exists p', bodies w' !! j = Some p' /\ mesh_ok p'.
Proof.
  intros Hrun.
  assert (Hrel : related (fun p q => mesh_ok p -> mesh_ok q) [sun; earth; moon] w w').
  { eapply run_related; [..|exact Hrun]; cbv beta; eauto using animate_step_mesh_ok. }
  destruct Hrel as [Hlen H]. split; [exact Hlen|].
  intros j p Hj Hok. destruct (H j p Hj) as (p' & Hp' & HR & _).
  exists p'. split; [exact Hp'|apply HR, Hok].
Qed.

(** ** What the loop never touches *)

(** X5: The render loop animates and resets the first three planets only: the
    star background, and any planet constructed after it, is after any number
    of frames exactly what it was, and the table keeps its length. *)
Theorem run_leaves_background (frames : list FrameInput) (w w' : World) :
  run frames w = Some w' ->
  length (bodies w') = length (bodies w) /\
  forall j, (starBackground <= j)%nat -> bodies w' !! j = bodies w !! j.
Proof.
  intros Hrun.
  assert (Hrel : related (fun _ _ => True) [sun; earth; moon] w w').
  { eapply run_related; [..|exact Hrun]; cbv beta; auto. }
  destruct Hrel as [Hl H].
  split; [exact Hl|]. intros j Hj.
  destruct (bodies w !! j) as [p|] eqn:Hp.
  - destruct (H j p Hp) as (p' & Hp' & _ & Hn). rewrite Hp'. f_equal. apply Hn.
    unfold starBackground, sun, earth, moon in *.
    rewrite !elem_of_cons, elem_of_nil. lia.
  - apply lookup_ge_None. rewrite Hl. apply lookup_ge_None, Hp.
Qed.

Lemma animate_step_origin (w : World) (p q : Planet) :
  updateOrbitalRotation w (updateAxialRotation w p) = Some q ->
  parent p = None -> parent q = None /\ position q = vec3_zero.
Proof.
  intros Hq Hpar.
  destruct (updateOrbitalRotation_Some _ _ _ Hq) as (pos & Hloc & ->).
  simpl in Hloc. unfold updateLocation in Hloc. simpl in Hloc.
  rewrite Hpar in Hloc. injection Hloc as Hpos.
  unfold updateTranslationMatrix; simpl. rewrite Hpar; simpl.
  split; [exact Hpar|]. rewrite <- Hpos. reflexivity.
Qed.

(** X6: A planet without a parent that is at the origin (the sun, the star
    background) is still at the origin, and without a parent, after any number
    of frames, whatever its angles have become. *)
Theorem run_keeps_root_at_origin (frames : list FrameInput) (w w' : World)
    (j : nat) (p : Planet) :
  run frames w = Some w' -> bodies w !! j = Some p ->
  parent p = None -> position p = vec3_zero ->
  exists p', bodies w' !! j = Some p' /\ parent p' = None /\ position p' = vec3_zero.
Proof.
  intros Hrun Hj Hpar Hpos.
  assert (Hrel : related
                   (fun p q => parent p = None /\ position p = vec3_zero ->
                               parent q = None /\ position q = vec3_zero)
                   [sun; earth; moon] w w').
  { eapply run_related; [..|exact Hrun]; cbv beta; auto.
    intros w0 p0 q0 Hq [Hp0 _]. eapply animate_step_origin; eauto. }
  destruct Hrel as [_ H].
  destruct (H j p Hj) as (p' & Hp' & HR & _).
  exists p'. split; [exact Hp'|]. apply HR. auto.
Qed.

(** ** The loop never dereferences a missing planet *)

Lemma related_well_formed (touched : list nat) (w w' : World) :
  related (fun p q => parent q = parent p) touched w w' ->
  well_formed w -> well_formed w'.
Proof.
  intros Hrel [Hv Hlen]. pose proof Hrel as [Hl H]. split; [|rewrite Hl; exact Hlen].
  intros i p' j Hi Hj.
  destruct (related_backward _ _ _ _ _ _ Hrel Hi) as (p & Hp & Hpar & _).
  rewrite Hpar in Hj. apply lookup_lt_is_Some. rewrite Hl.
  apply lookup_lt_is_Some. eapply Hv; eassumption.
Qed.

Lemma animate_step_parent (w : World) (p q : Planet) :
  updateOrbitalRotation w (updateAxialRotation w p) = Some q -> parent q = parent p.
Proof.
  intros Hq.
  pose proof (updateOrbitalRotation_frozen _ _ _ Hq)
    as (_ & _ & _ & _ & _ & _ & Hpar & _).
  exact Hpar.
Qed.

Lemma resetOrientationAt_total (this : nat) (w : World) :
  well_formed w -> (this < 3)%nat ->
  exists w', resetOrientationAt this w = Some w' /\ well_formed w'.
Proof.
  intros Hwf Hthis.
  assert (Hsome : is_Some (bodies w !! this)).
  { apply lookup_lt_is_Some. destruct Hwf as [_ Hlen]. lia. }
  destruct Hsome as [p Hp].
  assert (Hr : resetOrientationAt this w =
               Some (set_bodies (<[this := resetOrientation p]> (bodies w)) w)).
  { unfold resetOrientationAt. rewrite Hp. reflexivity. }
  eexists; split; [exact Hr|].
  eapply related_well_formed; [|exact Hwf].
  eapply resetOrientationAt_related; [..|exact Hr]; cbv beta; auto.
Qed.

Lemma animate_total_wf (now : double) (this : nat) (w : World) :
  well_formed w -> (this < 3)%nat ->
  exists w', animate now this w = Some w' /\ well_formed w'.
Proof.
  intros Hwf Hthis.
  assert (Hsome : is_Some (bodies w !! this)).
  { apply lookup_lt_is_Some. destruct Hwf as [_ Hlen]. lia. }
  destruct (animate_total now this w (proj1 Hwf) Hsome) as [w' Ha].
  exists w'; split; [exact Ha|].
  eapply related_well_formed; [|exact Hwf].
  eapply animate_related; [..|exact Ha]; cbv beta; eauto using animate_step_parent.
Qed.

Lemma frame_total (i : FrameInput) (w : World) :
  well_formed w -> exists w', frame i w = Some w' /\ well_formed w'.
Proof.
  intros Hwf. unfold frame.
  assert (Hwf0 : well_formed (pollEvents (fi_events i) w)).
  { destruct (pollEvents_keeps (fi_events i) w) as (Hb & _).
    unfold well_formed, parents_valid in *. rewrite Hb. exact Hwf. }
  assert (Hsr : exists w1, serviceRestart (pollEvents (fi_events i) w) = Some w1 /\
                           well_formed w1).
  { unfold serviceRestart. destruct (restartAnimation _); [|eauto].
    destruct (resetOrientationAt_total sun _ Hwf0) as (w1 & -> & Hwf1);
      [unfold sun; lia|]. rewrite option_bind_Some_eq.
    destruct (resetOrientationAt_total earth _ Hwf1) as (w2 & -> & Hwf2);
      [unfold earth; lia|]. rewrite option_bind_Some_eq.
    destruct (resetOrientationAt_total moon _ Hwf2) as (w3 & -> & Hwf3);
      [unfold moon; lia|]. rewrite option_bind_Some_eq.
    eexists; split; [reflexivity|]. exact Hwf3. }
  destruct Hsr as (w1 & -> & Hwf1). rewrite option_bind_Some_eq.
  unfold animateAll. destruct (isAnimating w1); [|eauto].
  destruct (animate_total_wf (fi_t_sun i) sun _ Hwf1) as (w2 & -> & Hwf2);
    [unfold sun; lia|]. rewrite option_bind_Some_eq.
  destruct (animate_total_wf (fi_t_earth i) earth _ Hwf2) as (w3 & -> & Hwf3);
    [unfold earth; lia|]. rewrite option_bind_Some_eq.
  destruct (animate_total_wf (fi_t_moon i) moon _ Hwf3) as (w4 & -> & Hwf4);
    [unfold moon; lia|].
  eauto.
Qed.

Lemma run_well_formed (frames : list FrameInput) (w : World) :
  well_formed w -> exists w', run frames w = Some w' /\ well_formed w'.
Proof.
  revert w. induction frames as [|i frames IH]; intros w Hwf; simpl; [eauto|].
  destruct (frame_total i w Hwf) as (w1 & -> & Hwf1).
  rewrite option_bind_Some_eq. apply IH, Hwf1.
Qed.

(** X3: When the table holds at least the sun, the earth and the moon and every
    parent pointer points into it, the render loop runs through any frames,
    with any events and clock readings, without ever reaching for a planet
    that is not there; and the table is then as well formed as before. *)
Theorem run_total (frames : list FrameInput) (w : World) :
  well_formed w -> exists w', run frames w = Some w' /\ well_formed w'.
Proof. exact (run_well_formed frames w). Qed.

(** ** The clock under a pause *)

Lemma pollEvents_well_formed (events : list KeyEvent) (w : World) :
  well_formed w -> well_formed (pollEvents events w).
Proof.
  intros Hwf. destruct (pollEvents_keeps events w) as (Hb & _).
  unfold well_formed, parents_valid in *. rewrite Hb. exact Hwf.
Qed.

Lemma serviceRestart_total (w : World) :
  well_formed w -> exists w', serviceRestart w = Some w' /\ well_formed w'.
Proof.
  intros Hwf. unfold serviceRestart. destruct (restartAnimation _); [|eauto].
  destruct (resetOrientationAt_total sun _ Hwf) as (w1 & -> & Hwf1);
    [unfold sun; lia|]. rewrite option_bind_Some_eq.
  destruct (resetOrientationAt_total earth _ Hwf1) as (w2 & -> & Hwf2);
    [unfold earth; lia|]. rewrite option_bind_Some_eq.
  destruct (resetOrientationAt_total moon _ Hwf2) as (w3 & -> & Hwf3);
    [unfold moon; lia|]. rewrite option_bind_Some_eq.
  eexists; split; [reflexivity|]. exact Hwf3.
Qed.

(** C10: pausing does not stop the clock the deltas are taken from.  Over any
    number of frames that start paused and get no press of the space bar, no
    [animate] runs (every planet is as it was, or reset), and [lastUpdateTime]
    and the speed stay.  And in the frame that follows, whatever keys it
    receives, the [animate] call of any planet of the table, at the clock
    reading [now], does return, and it advances both angles of the planet by
    rate times speed times the whole advance of the clock since the stamp from
    before the pause. *)
Theorem pause_keeps_time_base (frames : list FrameInput) (w w' : World) :
  isAnimating w = false ->
  Forall (fun i => no_pause_toggle (fi_events i)) frames ->
  run frames w = Some w' ->
  lastUpdateTime w' = lastUpdateTime w /\
  animationSpeed w' = animationSpeed w /\
  only_reset w w' /\
  forall (events : list KeyEvent) (now : double) (this : nat),
    well_formed w -> is_Some (bodies w !! this) ->
    exists (w2 : World) (p : Planet) (w3 : World) (p' : Planet),
      serviceRestart (pollEvents events w') = Some w2 /\
      bodies w2 !! this = Some p /\
      animate now this w2 = Some w3 /\
      bodies w3 !! this = Some p' /\
      axialAngle p' =
        (axialAngle p + rotationSpeed p * animationSpeed w2 *
         F32.round (F64.sub now (lastUpdateTime w)))%f32 /\
      orbitalAngle p' =
        (orbitalAngle p + orbitalSpeed p * animationSpeed w2 *
         F32.round (F64.sub now (lastUpdateTime w)))%f32.
Proof.
  intros Ha Hev Hrun.
  destruct (run_paused _ _ _ Ha Hev Hrun) as (_ & Hl & Hs & Ho).
  split; [exact Hl|]. split; [exact Hs|]. split; [exact Ho|].
  intros events now this Hwf Hthis.
  assert (Hwf' : well_formed w').
  { destruct (run_well_formed frames w Hwf) as (w'' & Hrun' & Hwf'').
    rewrite Hrun in Hrun'. injection Hrun' as <-. exact Hwf''. }
  destruct (serviceRestart_total _ (pollEvents_well_formed events w' Hwf'))
    as (w2 & H2 & Hwf2).
  assert (Hlen : length (bodies w2) = length (bodies w)).
  { assert (R1 : related (fun _ _ => True) [sun; earth; moon] w w').
    { eapply run_related; [..|exact Hrun]; cbv beta; auto. }
    assert (R2 : related (fun _ _ => True) [sun; earth; moon]
                   (pollEvents events w') w2).
    { eapply serviceRestart_related; [..|exact H2]; cbv beta; auto. }
    destruct R1 as [L1 _]. destruct R2 as [L2 _].
    destruct (pollEvents_keeps events w') as (Hb & _).
    rewrite L2, Hb, L1. reflexivity. }
  assert (Hp : is_Some (bodies w2 !! this)).
  { apply lookup_lt_is_Some. rewrite Hlen. apply lookup_lt_is_Some. exact Hthis. }
  destruct Hp as [p Hp].
  destruct (animate_total now this w2 (proj1 Hwf2) (ex_intro _ p Hp)) as [w3 Han].
  destruct (pollEvents_keeps events w') as (_ & Hl1 & _).
  destruct (serviceRestart_only_reset _ _ H2) as (_ & _ & _ & Hl2).
  destruct (animate_angles _ _ _ _ _ Hp Han) as (p' & Hp' & Hax & Hor).
  exists w2, p, w3, p'. rewrite Hl2, Hl1, Hl in Hax, Hor.
  exact (conj H2 (conj Hp (conj Han (conj Hp' (conj Hax Hor))))).
Qed.

(** ** Pause *)

Lemma keyCallback_idle (e : KeyEvent) (w : World) :
  isAnimating w = false -> idle_key e ->
  keyCallback (ev_key e) (ev_scancode e) (ev_action e) (ev_mods e) w = w.
Proof.
  intros Ha [Hs Hr]. unfold keyCallback. rewrite Hs, Hr, Ha, !andb_false_r.
  reflexivity.
Qed.

Lemma pollEvents_idle (events : list KeyEvent) (w : World) :
  isAnimating w = false -> Forall idle_key events -> pollEvents events w = w.
Proof.
  intros Ha Hev. unfold pollEvents.
  induction Hev as [|e events He Hev IH]; simpl; [reflexivity|].
  rewrite (keyCallback_idle e w Ha He). exact IH.
Qed.

(** X8: While the animation is paused and no reset is pending, frames whose key
    events neither press the space bar nor press R change nothing at all: no
    planet, no angle, no position, not the speed (the arrow keys are ignored
    while paused) and not the time stamp, however many frames pass and
    whatever the clock reads. *)
Theorem paused_frames_change_nothing (frames : list FrameInput) (w : World) :
  isAnimating w = false -> restartAnimation w = false ->
  Forall (fun i => Forall idle_key (fi_events i)) frames ->
  run frames w = Some w.
Proof.
  intros Ha Hr Hev. induction Hev as [|i frames Hi Hev IH]; simpl; [reflexivity|].
  assert (Hf : frame i w = Some w).
  { unfold frame. rewrite (pollEvents_idle _ _ Ha Hi).
    rewrite (serviceRestart_no_request _ Hr), option_bind_Some_eq.
    unfold animateAll. rewrite Ha. reflexivity. }
  rewrite Hf, option_bind_Some_eq. exact IH.
Qed.

(** ** Reset requests *)

Lemma keyCallback_R_press (e : KeyEvent) (w : World) :
  is_R_press e ->
  restartAnimation
    (keyCallback (ev_key e) (ev_scancode e) (ev_action e) (ev_mods e) w) = true.
Proof.
  intros [Hk Ha]. unfold keyCallback. rewrite Hk, Ha. reflexivity.
Qed.

Lemma keyCallback_request_stays (key scancode action mods : Z) (w : World) :
  restartAnimation w = true ->
  restartAnimation (keyCallback key scancode action mods w) = true.
Proof.
  intros Hr. unfold keyCallback.
  repeat match goal with |- context [if ?b then _ else _] => destruct b end;
    simpl; auto.
Qed.

Lemma pollEvents_request_stays (events : list KeyEvent) (w : World) :
  restartAnimation w = true -> restartAnimation (pollEvents events w) = true.
Proof.
  unfold pollEvents. revert w.
  induction events as [|e events IH]; intros w Hr; simpl; [exact Hr|].
  apply IH, keyCallback_request_stays, Hr.
Qed.

Lemma pollEvents_R_press (events : list KeyEvent) (w : World) :
  Exists is_R_press events -> restartAnimation (pollEvents events w) = true.
Proof.
  intros Hex. revert w.
  induction Hex as [e events He|e events Hex IH]; intros w.
  - apply (pollEvents_request_stays events), keyCallback_R_press, He.
  - apply (IH _).
Qed.

Lemma serviceRestart_pending (w w' : World) :
  restartAnimation w = true -> serviceRestart w = Some w' ->
  restartAnimation w' = false /\ isAnimating w' = isAnimating w /\
  animationSpeed w' = animationSpeed w /\ lastUpdateTime w' = lastUpdateTime w /\
  length (bodies w') = length (bodies w) /\
  forall j p, bodies w !! j = Some p ->
    bodies w' !! j = Some (if decide (j < 3)%nat then resetOrientation p else p).
Proof.
  intros Hr. unfold serviceRestart. rewrite Hr.
  destruct (resetOrientationAt sun w) as [w1|] eqn:H1; simpl; [|discriminate].
  destruct (resetOrientationAt earth w1) as [w2|] eqn:H2; simpl; [|discriminate].
  destruct (resetOrientationAt moon w2) as [w3|] eqn:H3; simpl; [|discriminate].
  intros [= <-].
  destruct (resetOrientationAt_Some _ _ _ H1) as (q1 & _ & E1).
  destruct (resetOrientationAt_Some _ _ _ H2) as (q2 & _ & E2).
  destruct (resetOrientationAt_Some _ _ _ H3) as (q3 & _ & E3).
  split; [reflexivity|].
  split; [rewrite E3, E2, E1; reflexivity|].
  split; [rewrite E3, E2, E1; reflexivity|].
  split; [rewrite E3, E2, E1; reflexivity|].
  split.
  { rewrite E3, E2, E1. simpl. rewrite !length_insert. reflexivity. }
  intros j p Hj. simpl.
  pose proof (resetOrientationAt_lookup _ _ _ _ _ H1 Hj) as L1.
  pose proof (resetOrientationAt_lookup _ _ _ _ _ H2 L1) as L2.
  pose proof (resetOrientationAt_lookup _ _ _ _ _ H3 L2) as L3.
  rewrite L3. f_equal. unfold sun, earth, moon in *.
  repeat destruct (decide _); try lia; reflexivity.
Qed.

(** X9: A press of R, anywhere among the key events of a frame, is serviced in
    that very frame and once: with the animation paused, the frame leaves the
    sun, the earth and the moon each exactly as [resetOrientation] makes it
    (both angles at [PI / 2]), every other planet as it was, the request flag
    cleared, and the speed and the time stamp as the events left them. *)
Theorem restart_resets_all_three (i : FrameInput) (w w' : World) :
  Exists is_R_press (fi_events i) ->
  isAnimating (pollEvents (fi_events i) w) = false ->
  frame i w = Some w' ->
  restartAnimation w' = false /\
  lastUpdateTime w' = lastUpdateTime w /\
  forall j p, bodies w !! j = Some p ->
    bodies w' !! j = Some (if decide (j < 3)%nat then resetOrientation p else p).
Proof.
  intros Hex Ha Hf. unfold frame in Hf.
  pose proof (pollEvents_R_press _ w Hex) as Hr.
  destruct (pollEvents_keeps (fi_events i) w) as (Hb & Hl & _).
  destruct (serviceRestart (pollEvents (fi_events i) w)) as [w1|] eqn:H1;
    simpl in Hf; [|discriminate].
  destruct (serviceRestart_pending _ _ Hr H1) as (Hr1 & Ha1 & _ & Hl1 & _ & Hlook).
  unfold animateAll in Hf. rewrite Ha1, Ha in Hf. injection Hf as <-.
  split; [exact Hr1|]. split; [congruence|].
  intros j p Hj. apply Hlook. rewrite Hb. exact Hj.
Qed.

(** X10: With the animation running, the reset comes before the [animate] calls of
    the same frame: after a frame in which R was pressed, each of the sun, the
    earth and the moon has its axial and orbital angle at [PI / 2] plus one
    step, its rate times the speed times the delta of its [animate] call. *)
Theorem restart_then_animate (i : FrameInput) (w : World) (ps pe pm : Planet) :
  well_formed w ->
  Exists is_R_press (fi_events i) ->
  isAnimating (pollEvents (fi_events i) w) = true ->
  bodies w !! sun = Some ps -> bodies w !! earth = Some pe ->
  bodies w !! moon = Some pm ->
  exists w' ps' pe' pm',
    frame i w = Some w' /\
    bodies w' !! sun = Some ps' /\ bodies w' !! earth = Some pe' /\
    bodies w' !! moon = Some pm' /\
    restartAnimation w' = false /\
    axialAngle ps' =
      (half_PI + rotationSpeed ps * animationSpeed (pollEvents (fi_events i) w) *
       F32.round (F64.sub (fi_t_sun i) (lastUpdateTime w)))%f32 /\
    orbitalAngle ps' =
      (half_PI + orbitalSpeed ps * animationSpeed (pollEvents (fi_events i) w) *
       F32.round (F64.sub (fi_t_sun i) (lastUpdateTime w)))%f32 /\
    axialAngle pe' =
      (half_PI + rotationSpeed pe * animationSpeed (pollEvents (fi_events i) w) *
       F32.round (F64.sub (fi_t_earth i) (fi_t_sun i)))%f32 /\
    orbitalAngle pe' =
      (half_PI + orbitalSpeed pe * animationSpeed (pollEvents (fi_events i) w) *
       F32.round (F64.sub (fi_t_earth i) (fi_t_sun i)))%f32 /\
    axialAngle pm' =
      (half_PI + rotationSpeed pm * animationSpeed (pollEvents (fi_events i) w) *
       F32.round (F64.sub (fi_t_moon i) (fi_t_earth i)))%f32 /\
    orbitalAngle pm' =
      (half_PI + orbitalSpeed pm * animationSpeed (pollEvents (fi_events i) w) *
       F32.round (F64.sub (fi_t_moon i) (fi_t_earth i)))%f32.
Proof.
  intros Hwf Hex Ha Hs He Hm.
  destruct (frame_total i w Hwf) as (w' & Hf & _).
  pose proof Hf as Hf'. unfold frame in Hf'.
  pose proof (pollEvents_R_press _ w Hex) as Hr.
  destruct (pollEvents_keeps (fi_events i) w) as (Hb & Hl & _).
  destruct (serviceRestart (pollEvents (fi_events i) w)) as [w1|] eqn:H1;
    simpl in Hf'; [|discriminate].
  destruct (serviceRestart_pending _ _ Hr H1) as (Hr1 & Ha1 & Hsp1 & Hl1 & _ & Hlook).
  rewrite <- Hb in Hs, He, Hm.
  pose proof (Hlook _ _ Hs) as Hs1. pose proof (Hlook _ _ He) as He1.
  pose proof (Hlook _ _ Hm) as Hm1. simpl in Hs1, He1, Hm1.
  assert (Hwf1 : well_formed w1).
  { eapply related_well_formed.
    - eapply serviceRestart_related; [..|exact H1]; cbv beta; auto. congruence.
    - destruct (pollEvents_keeps (fi_events i) w) as (Hb' & _).
      unfold well_formed, parents_valid in *. rewrite Hb'. exact Hwf. }
  destruct (animateAll_deltas (fi_t_sun i) (fi_t_earth i) (fi_t_moon i) w1
              _ _ _ ltac:(congruence) (proj1 Hwf1) Hs1 He1 Hm1)
    as (w2 & ps' & pe' & pm' & Hall & Ls & Le & Lm & As & Os & Ae & Oe & Am & Om).
  rewrite Hall in Hf'. injection Hf' as <-.
  exists w2, ps', pe', pm'.
  assert (Hr2 : restartAnimation w2 = false).
  { unfold animateAll in Hall. rewrite Ha1, Ha in Hall.
    destruct (animate (fi_t_sun i) sun w1) as [x1|] eqn:X1; simpl in Hall;
      [|discriminate].
    destruct (animate (fi_t_earth i) earth x1) as [x2|] eqn:X2; simpl in Hall;
      [|discriminate].
    destruct (animate_globals _ _ _ _ X1) as (_ & _ & R1 & _).
    destruct (animate_globals _ _ _ _ X2) as (_ & _ & R2 & _).
    destruct (animate_globals _ _ _ _ Hall) as (_ & _ & R3 & _).
    congruence. }
  rewrite Hsp1, Hl1, Hl in As, Os. rewrite Hsp1 in Ae, Oe, Am, Om.
  repeat (split; [assumption|]). exact Om.
Qed.

(** ** Parents before children *)

Lemma animate_offset (now : double) (this : nat) (w w' : World) (p : Planet) :
  bodies w !! this = Some p -> animate now this w = Some w' ->
  exists p', bodies w' !! this = Some p' /\ parent p' = parent p /\
    match parent p with
    | None => position p' = vec3_zero
    | Some j =>
        exists q, bodies w !! j = Some q /\
          position p' = vec3_add (position q) (orbit_offset p')
    end.
Proof.
  intros Hp Ha.
  destruct (animate_position _ _ _ _ _ Hp Ha) as (p' & Hp' & Hpos).
  destruct (animate_lookup _ _ _ _ _ _ Ha Hp) as (p'' & Hp'' & Hfro & _).
  rewrite Hp' in Hp''; injection Hp'' as <-.
  destruct Hfro as (Hi & _ & Hd & _ & _ & _ & Hpar & _).
  exists p'. split; [exact Hp'|]. split; [exact Hpar|].
  destruct (parent p) as [j|]; [|exact Hpos].
  destruct Hpos as (q & Hq & Hpos). exists q. split; [exact Hq|].
  unfold orbit_offset. rewrite Hi, Hd. exact Hpos.
Qed.

(** X7: The order sun, earth, moon leaves no lag: after every frame in which the
    animation runs (also one that services a reset first), the sun is at the
    origin, the earth is at the sun's position of this frame plus the earth's
    own offset at its new angle, and the moon is at the earth's position of
    this frame, not of the frame before, plus its own offset. *)
Theorem frame_positions_top_down (i : FrameInput) (w w' : World)
    (ps pe pm : Planet) :
  frame i w = Some w' ->
  isAnimating (pollEvents (fi_events i) w) = true ->
  bodies w !! sun = Some ps -> bodies w !! earth = Some pe ->
  bodies w !! moon = Some pm ->
  parent ps = None -> parent pe = Some sun -> parent pm = Some earth ->
  exists ps' pe' pm',
    bodies w' !! sun = Some ps' /\ bodies w' !! earth = Some pe' /\
    bodies w' !! moon = Some pm' /\
    position ps' = vec3_zero /\
    position pe' = vec3_add (position ps') (orbit_offset pe') /\
    position pm' = vec3_add (position pe') (orbit_offset pm').
Proof.
  intros Hf Ha Hs He Hm Ps Pe Pm. unfold frame in Hf.
  destruct (pollEvents_keeps (fi_events i) w) as (Hb & _).
  destruct (serviceRestart (pollEvents (fi_events i) w)) as [w1|] eqn:H1;
    simpl in Hf; [|discriminate].
  assert (Hrel : related (fun p q => parent q = parent p) [sun; earth; moon]
                   (pollEvents (fi_events i) w) w1).
  { eapply serviceRestart_related; [..|exact H1]; cbv beta; auto. congruence. }
  destruct (serviceRestart_only_reset _ _ H1) as (_ & _ & Ha1 & _).
  destruct Hrel as [_ Hrel]. rewrite <- Hb in Hs, He, Hm.
  destruct (Hrel _ _ Hs) as (ps1 & Hs1 & Ps1 & _).
  destruct (Hrel _ _ He) as (pe1 & He1 & Pe1 & _).
  destruct (Hrel _ _ Hm) as (pm1 & Hm1 & Pm1 & _).
  rewrite Ps in Ps1. rewrite Pe in Pe1. rewrite Pm in Pm1.
  unfold animateAll in Hf. rewrite Ha1, Ha in Hf.
  destruct (animate (fi_t_sun i) sun w1) as [w2|] eqn:A1; simpl in Hf; [|discriminate].
  destruct (animate (fi_t_earth i) earth w2) as [w3|] eqn:A2; simpl in Hf;
    [|discriminate].
  (* the sun *)
  destruct (animate_offset _ _ _ _ _ Hs1 A1) as (ps2 & Hs2 & _ & Xs).
  rewrite Ps1 in Xs.
  destruct (animate_lookup _ _ _ _ _ _ A1 He1) as (pe2 & He2 & _ & Ne2).
  rewrite (Ne2 ltac:(discriminate)) in He2.
  destruct (animate_lookup _ _ _ _ _ _ A1 Hm1) as (pm2 & Hm2 & _ & Nm2).
  rewrite (Nm2 ltac:(discriminate)) in Hm2.
  (* the earth *)
  destruct (animate_offset _ _ _ _ _ He2 A2) as (pe3 & He3 & _ & Xe).
  rewrite Pe1 in Xe. destruct Xe as (q & Hq & Xe).
  rewrite Hs2 in Hq; injection Hq as <-.
  destruct (animate_lookup _ _ _ _ _ _ A2 Hs2) as (ps3 & Hs3 & _ & Ns3).
  rewrite (Ns3 ltac:(discriminate)) in Hs3.
  destruct (animate_lookup _ _ _ _ _ _ A2 Hm2) as (pm3 & Hm3 & _ & Nm3).
  rewrite (Nm3 ltac:(discriminate)) in Hm3.
  (* the moon *)
  destruct (animate_offset _ _ _ _ _ Hm3 Hf) as (pm4 & Hm4 & _ & Xm).
  rewrite Pm1 in Xm. destruct Xm as (q & Hq & Xm).
  rewrite He3 in Hq; injection Hq as <-.
  destruct (animate_lookup _ _ _ _ _ _ Hf Hs3) as (ps4 & Hs4 & _ & Ns4).
  rewrite (Ns4 ltac:(discriminate)) in Hs4.
  destruct (animate_lookup _ _ _ _ _ _ Hf He3) as (pe4 & He4 & _ & Ne4).
  rewrite (Ne4 ltac:(discriminate)) in He4.
  exists ps2, pe3, pm4. auto 10.
Qed.

(** ** Speed zero *)

Lemma zero_step (a b c : spec_float) (s : bool) :
  finite_float a -> finite_float c -> finite_nonzero b ->
  (b + a * S754_zero s * c)%f32 = b.
Proof.
  destruct a as [sa|sa| |sa ma ea], c as [sc|sc| |sc mc ec],
    b as [sb|sb| |sb mb eb]; simpl; try tauto; intros _ _ _; reflexivity.
Qed.

(** X11: At speed multiplier zero (what the down arrow clamps to) [animate] leaves
    both angles of its planet exactly as they were, provided the rates and the
    elapsed time are finite and the angles are finite and not zero: the
    animation stands still while the clock and the time stamp go on. *)
Theorem zero_speed_freezes_angles (now : double) (this : nat) (w w' : World)
    (p : Planet) (s : bool) :
  animationSpeed w = S754_zero s ->
  finite_float (rotationSpeed p) -> finite_float (orbitalSpeed p) ->
  finite_float (F32.round (F64.sub now (lastUpdateTime w))) ->
  finite_nonzero (axialAngle p) -> finite_nonzero (orbitalAngle p) ->
  bodies w !! this = Some p -> animate now this w = Some w' ->
  exists p', bodies w' !! this = Some p' /\
    axialAngle p' = axialAngle p /\ orbitalAngle p' = orbitalAngle p /\
    lastUpdateTime w' = now.
Proof.
  intros Hs Hr Ho Hd Hax Hor Hp Ha.
  destruct (animate_angles _ _ _ _ _ Hp Ha) as (p' & Hp' & Ax & Or).
  destruct (animate_globals _ _ _ _ Ha) as (_ & _ & _ & Hl & _).
  exists p'. rewrite Hs in Ax, Or.
  rewrite zero_step in Ax by assumption. rewrite zero_step in Or by assumption.
  auto.
Qed.

(** ** What is drawn *)

(** X12: After [animate], what [draw] hands to the shader is: the translation by
    the new position (the model matrix itself for a planet without parent),
    the rotations by the new axial angle and by its opposite about the axis
    frozen at the last reset, and the vertex count, which never changes. *)
Theorem draw_after_animate (now : double) (this : nat) (w w' : World) (p : Planet) :
  bodies w !! this = Some p -> animate now this w = Some w' ->
  exists p', bodies w' !! this = Some p' /\
    draw p' =
      (match parent p with
       | None => modelMatrix p
       | Some _ => translate (modelMatrix p) (position p')
       end,
       rotate (modelMatrix p) (axialAngle p') (rotationAxis p),
       rotate (modelMatrix p) (- axialAngle p')%f32 (rotationAxis p),
       length (verts (cpuGeom p))).
Proof.
  intros Hp Ha. destruct (animate_Some _ _ _ _ Ha) as (p0 & q & Hp0 & Hq & ->).
  rewrite Hp in Hp0; injection Hp0 as <-.
  destruct (updateOrbitalRotation_Some _ _ _ Hq) as (pos & _ & ->).
  eexists; split.
  { simpl. apply list_lookup_insert_eq. eapply lookup_lt_Some, Hp. }
  unfold draw, updateTranslationMatrix; simpl.
  destruct (parent p); reflexivity.
Qed.

(** ** The constructor *)

(** What [generateSphereWith] makes of a planet when the grid is [cells]. *)
Lemma generateSphereWith_eq (inc : float) (fuel : nat) (p : Planet)
    (cells : list (float * float)) :
  sphere_grid fuel inc = Some cells ->
  generateSphereWith inc fuel p =
  Some (updateGPUGeom (updateNormals
          (emit (flat_map (emitted_corners inc) cells)
             (set_cpuGeom (mkCPU [] [] (normals (cpuGeom p))) p)))).
Proof.
  intros Hg. unfold generateSphereWith. rewrite sphere_loop_u_emit.
  fold (sphere_grid fuel inc). rewrite Hg. reflexivity.
Qed.

Section Built.
Variables (pts : list (float * float)) (c : CPU_Geometry).

(** The mesh part of the constructor, on any planet. *)
Let mesh (y : Planet) : Planet :=
  updateGPUGeom (updateNormals (emit pts (set_cpuGeom c y))).

Lemma mesh_resetOrientation (y : Planet) :
  resetOrientation (mesh y) = mesh (resetOrientation y).
Proof. destruct y; reflexivity. Qed.

Lemma mesh_updateTranslationMatrix (y : Planet) :
  updateTranslationMatrix (mesh y) = mesh (updateTranslationMatrix y).
Proof.
  destruct y as [? ? ? ? ? ? ? ? par ? ? ? ? ? ? ? ? ?].
  unfold updateTranslationMatrix; simpl. destruct par; reflexivity.
Qed.

Lemma mesh_updateLocation (w : World) (y : Planet) :
  updateLocation w y = Some y -> updateLocation w (mesh y) = Some (mesh y).
Proof.
  destruct y as [? ? ? ? ? ? ? ? par ? ? ? ? ? ? ? ? ?].
  unfold updateLocation; simpl. destruct par as [j|]; simpl.
  - destruct (bodies w !! j) as [q|]; simpl; [|discriminate].
    intros [= <-]. reflexivity.
  - intros [= <-]. reflexivity.
Qed.

Lemma mesh_updateNormals (y : Planet) : updateNormals (mesh y) = mesh y.
Proof. destruct y; reflexivity. Qed.

Lemma mesh_fields (y : Planet) :
  radius (mesh y) = radius y /\ distanceFromParent (mesh y) = distanceFromParent y.
Proof. split; reflexivity. Qed.

Lemma mesh_mesh_ok (y : Planet) :
  length (texCoords c) = length (verts c) -> mesh_ok (mesh y).
Proof.
  intros Hc. unfold mesh_ok; simpl.
  repeat (rewrite length_map || rewrite length_app). rewrite Hc.
  repeat split; reflexivity.
Qed.

End Built.

Lemma placed_resetOrientation (pos : vec3) (y : Planet) :
  resetOrientation y = y ->
  resetOrientation (updateTranslationMatrix (set_position pos y)) =
  updateTranslationMatrix (set_position pos y).
Proof.
  destruct y as [? ? ? ? ? ? ? ? par ? ? ? ? ? ? ? ? ?].
  unfold updateTranslationMatrix; simpl.
  destruct par; intros [= E1 E2 E3 E4 E5]; unfold resetOrientation; simpl;
    rewrite <- E1, <- E2, <- E3, <- E4, <- E5; reflexivity.
Qed.

Lemma placed_updateTranslationMatrix (y : Planet) :
  updateTranslationMatrix (updateTranslationMatrix y) = updateTranslationMatrix y.
Proof.
  destruct y as [? ? ? ? ? ? ? ? par ? ? ? ? ? ? ? ? ?].
  unfold updateTranslationMatrix; simpl. destruct par; reflexivity.
Qed.

Lemma placed_updateLocation (w : World) (pos : vec3) (y : Planet) :
  updateLocation w y = Some (set_position pos y) ->
  updateLocation w (updateTranslationMatrix (set_position pos y)) =
  Some (updateTranslationMatrix (set_position pos y)).
Proof.
  destruct y as [? ? ? ? ? ? ? ? par ? ? ? ? ? ? ? ? ?].
  unfold updateLocation, updateTranslationMatrix; simpl.
  destruct par as [j|]; simpl.
  - destruct (bodies w !! j) as [q|]; simpl; [|discriminate].
    intros [= <-]. reflexivity.
  - intros [= <-]. reflexivity.
Qed.

Lemma placed_fields (pos : vec3) (y : Planet) :
  radius (updateTranslationMatrix (set_position pos y)) = radius y /\
  distanceFromParent (updateTranslationMatrix (set_position pos y)) =
    distanceFromParent y.
Proof.
  unfold updateTranslationMatrix; simpl. destruct (parent y); split; reflexivity.
Qed.

Lemma Planet_new_fixpoints (fuel : nat) (w : World) (actualRadius : float)
    (texturePath : string) (axialSpeed orbitSpeed orbitalIncl tilt : float)
    (parentPtr : option nat) (actualDistanceFromParent : float) :
  is_Some (sphere_grid fuel uvInc) ->
  (forall j, parentPtr = Some j -> is_Some (bodies w !! j)) ->
  exists p,
    Planet_new fuel w actualRadius texturePath axialSpeed orbitSpeed orbitalIncl tilt
      parentPtr actualDistanceFromParent = Some p /\
    resetOrientation p = p /\
    updateLocation w p = Some p /\
    updateTranslationMatrix p = p /\
    updateNormals p = p /\
    mesh_ok p /\
    radius p = (actualRadius * modelScale)%f32 /\
    distanceFromParent p = (actualDistanceFromParent * modelScale)%f32.
Proof.
  intros [cells Hg] Hpar. unfold Planet_new. cbv zeta.
  match goal with |- context [updateLocation w ?q] => set (x1 := q) end.
  assert (Hreset : resetOrientation x1 = x1) by apply resetOrientation_idem.
  assert (Hrad : radius x1 = (actualRadius * modelScale)%f32) by reflexivity.
  assert (Hdist : distanceFromParent x1 = (actualDistanceFromParent * modelScale)%f32)
    by reflexivity.
  assert (Hpar1 : forall j, parent x1 = Some j -> is_Some (bodies w !! j))
    by exact Hpar.
  clearbody x1.
  destruct (updateLocation_total w x1 Hpar1) as [p2 Hp2].
  destruct (updateLocation_Some _ _ _ Hp2) as [pos ->].
  rewrite Hp2, option_bind_Some_eq; cbv beta.
  unfold generateSphere. rewrite (generateSphereWith_eq _ _ _ _ Hg).
  eexists; split; [reflexivity|].
  destruct (placed_fields pos x1) as [Hr1 Hd1].
  split; [rewrite mesh_resetOrientation, (placed_resetOrientation _ _ Hreset);
          reflexivity|].
  split; [apply mesh_updateLocation, placed_updateLocation, Hp2|].
  split; [rewrite mesh_updateTranslationMatrix, placed_updateTranslationMatrix;
          reflexivity|].
  split; [apply mesh_updateNormals|].
  split; [apply mesh_mesh_ok; reflexivity|].
  split.
  - rewrite (proj1 (mesh_fields _ _ _)), Hr1. exact Hrad.
  - rewrite (proj2 (mesh_fields _ _ _)), Hd1. exact Hdist.
Qed.

(** X2: A planet comes out of its constructor consistent: resetting it, updating
    its location against the table it was constructed in, its translation
    matrix or its normals changes nothing; its GPU buffers hold its vectors,
    with one normal and one texture coordinate per vertex; its radius and its
    distance are the arguments scaled by [modelScale]. *)
Theorem Planet_new_consistent (fuel : nat) (w : World) (actualRadius : float)
    (texturePath : string) (axialSpeed orbitSpeed orbitalIncl tilt : float)
    (parentPtr : option nat) (actualDistanceFromParent : float) :
  is_Some (sphere_grid fuel uvInc) ->
  (forall j, parentPtr = Some j -> is_Some (bodies w !! j)) ->
  exists p,
    Planet_new fuel w actualRadius texturePath axialSpeed orbitSpeed orbitalIncl tilt
      parentPtr actualDistanceFromParent = Some p /\
    resetOrientation p = p /\
    updateLocation w p = Some p /\
    updateTranslationMatrix p = p /\
    updateNormals p = p /\
    mesh_ok p /\
    radius p = (actualRadius * modelScale)%f32 /\
    distanceFromParent p = (actualDistanceFromParent * modelScale)%f32.
Proof. exact (Planet_new_fixpoints fuel w actualRadius texturePath axialSpeed orbitSpeed orbitalIncl tilt
  parentPtr actualDistanceFromParent). Qed.


(** ** [main] as a whole *)

Lemma Planet_new_ready (fuel : nat) (w : World) (actualRadius : float)
    (texturePath : string) (axialSpeed orbitSpeed orbitalIncl tilt : float)
    (parentPtr : option nat) (actualDistanceFromParent : float) :
  is_Some (sphere_grid fuel uvInc) ->
  (forall j, parentPtr = Some j -> is_Some (bodies w !! j)) ->
  exists p,
    Planet_new fuel w actualRadius texturePath axialSpeed orbitSpeed orbitalIncl tilt
      parentPtr actualDistanceFromParent = Some p /\
    parent p = parentPtr /\ mesh_ok p.
Proof.
  intros Hg Hpar.
  destruct (Planet_new_Some fuel w actualRadius texturePath axialSpeed orbitSpeed
              orbitalIncl tilt parentPtr actualDistanceFromParent Hg Hpar)
    as (p & Hp & Hparent & _).
  destruct (Planet_new_fixpoints fuel w actualRadius texturePath axialSpeed
              orbitSpeed orbitalIncl tilt parentPtr actualDistanceFromParent Hg Hpar)
    as (p' & Hp' & _ & _ & _ & _ & Hok & _).
  rewrite Hp in Hp'. injection Hp' as <-. eauto.
Qed.

Lemma main_init_ready (fuel : nat) (t0 : double) :
  is_Some (sphere_grid fuel uvInc) ->
  exists ps pe pm pb,
    main_init fuel t0 =
      Some {| bodies := [ps; pe; pm; pb]; animationSpeed := F32.of_Z 1;
              isAnimating := true; restartAnimation := false;
              lastUpdateTime := t0; currUpdateTime := S754_zero false |} /\
    (parent ps = None /\ parent pe = Some sun /\ parent pm = Some earth /\
     parent pb = None) /\
    (mesh_ok ps /\ mesh_ok pe /\ mesh_ok pm /\ mesh_ok pb).
Proof.
  intros Hg. unfold main_init. cbv zeta.
  match goal with |- context [Planet_new fuel ?w ?a ?b ?c ?d ?e ?f None ?h] =>
    destruct (Planet_new_ready fuel w a b c d e f None h Hg ltac:(discriminate))
      as (ps & Hps & Ps & Ms); rewrite Hps
  end.
  rewrite option_bind_Some_eq; cbv beta.
  match goal with |- context [Planet_new fuel ?w ?a ?b ?c ?d ?e ?f (Some sun) ?h] =>
    destruct (Planet_new_ready fuel w a b c d e f (Some sun) h Hg)
      as (pe & Hpe & Pe & Me);
      [intros j [= <-]; cbn [bodies set_bodies app]; eexists; reflexivity
      |rewrite Hpe]
  end.
  rewrite option_bind_Some_eq; cbv beta.
  match goal with |- context [Planet_new fuel ?w ?a ?b ?c ?d ?e ?f (Some earth) ?h] =>
    destruct (Planet_new_ready fuel w a b c d e f (Some earth) h Hg)
      as (pm & Hpm & Pm & Mm);
      [intros j [= <-]; cbn [bodies set_bodies app]; eexists; reflexivity
      |rewrite Hpm]
  end.
  rewrite option_bind_Some_eq; cbv beta.
  match goal with |- context [Planet_new fuel ?w ?a ?b ?c ?d ?e ?f None ?h] =>
    destruct (Planet_new_ready fuel w a b c d e f None h Hg ltac:(discriminate))
      as (pb & Hpb & Pb & Mb); rewrite Hpb
  end.
  rewrite option_bind_Some_eq; cbv beta.
  exists ps, pe, pm, pb. split; [reflexivity|].
  exact (conj (conj Ps (conj Pe (conj Pm Pb))) (conj Ms (conj Me (conj Mm Mb)))).
Qed.

(** X1: [main] as a whole: once the sphere loops end within the bound (they do,
    with the step of the program), [main] constructs its four planets, and
    from that state the render loop runs through any frames, whatever the
    events and the clock readings; at every point the table holds the four
    planets, every parent pointer points into it, and every planet has its GPU
    buffers equal to its vectors with one normal and one texture coordinate
    per vertex. *)
Theorem main_loop_runs (fuel : nat) (t0 : double) (frames : list FrameInput) :
  is_Some (sphere_grid fuel uvInc) ->
  exists w0 w,
    main_init fuel t0 = Some w0 /\ run frames w0 = Some w /\
    length (bodies w) = 4%nat /\ well_formed w /\ Forall mesh_ok (bodies w).
Proof.
  intros Hg.
  destruct (main_init_ready fuel t0 Hg)
    as (ps & pe & pm & pb & Hinit & (Ps & Pe & Pm & Pb) & (Ms & Me & Mm & Mb)).
  set (w0 := {| bodies := [ps; pe; pm; pb]; animationSpeed := F32.of_Z 1;
                isAnimating := true; restartAnimation := false;
                lastUpdateTime := t0; currUpdateTime := S754_zero false |}) in *.
  assert (Hwf : well_formed w0).
  { split; [apply main_init_parents_valid; assumption|simpl; lia]. }
  destruct (run_well_formed frames w0 Hwf) as (w & Hrun & Hwf').
  exists w0, w. split; [exact Hinit|]. split; [exact Hrun|].
  assert (Hlen : length (bodies w) = length (bodies w0)).
  { eapply (run_related (fun _ _ => True)); [..|exact Hrun]; cbv beta; auto. }
  split; [rewrite Hlen; reflexivity|]. split; [exact Hwf'|].
  apply (run_mesh_ok frames w0 w); [|exact Hrun].
  subst w0; cbn [bodies].
  do 4 (constructor; [assumption|]). constructor.
Qed.

End LoopProperties.

(** * Properties of the mouse callbacks *)

Section CallbackProperties.
Context `{L : MathLib} `{C : CameraLib}.

Lemma dispatch_button_up (e : InputEvent) (a : Assignment4) (w : World) :
  rightMouseDown a = false -> is_right_press e = false ->
  rightMouseDown (dispatch e (a, w)).1 = false /\
  camera (dispatch e (a, w)).1 =
    match e with
    | EvScroll _ yoffset => incrementR (F32.round yoffset) (camera a)
    | _ => camera a
    end.
Proof.
  intros Hup He. destruct e as [k sc ac m|b ac m|x y|x y|wd ht]; simpl in *.
  - auto.
  - unfold mouseButtonCallback.
    destruct (b =? GLFW_MOUSE_BUTTON_RIGHT); simpl in *; [|auto].
    rewrite He. destruct (ac =? GLFW_RELEASE); simpl; auto.
  - unfold cursorPosCallback. rewrite Hup. simpl. auto.
  - auto.
  - auto.
Qed.

Lemma dispatch_world (e : InputEvent) (a : Assignment4) (w : World) :
  (dispatch e (a, w)).2 =
    match e with
    | EvKey key scancode action mods => keyCallback key scancode action mods w
    | _ => w
    end /\
  (mouseOldX (dispatch e (a, w)).1, mouseOldY (dispatch e (a, w)).1) =
    match e with
    | EvCursorPos xpos ypos => (xpos, ypos)
    | _ => (mouseOldX a, mouseOldY a)
    end.
Proof.
  destruct e as [k sc ac m|b ac m|x y|x y|wd ht]; simpl; split; try reflexivity.
  - unfold mouseButtonCallback.
    repeat match goal with |- context [if ?b then _ else _] => destruct b end;
      reflexivity.
Qed.

Lemma dispatchAll_button_up (events : list InputEvent)
    (a : Assignment4) (w : World) :
  rightMouseDown a = false ->
  Forall (fun e => is_right_press e = false) events ->
  camera (dispatchAll events (a, w)).1 = scrolled events (camera a) /\
  rightMouseDown (dispatchAll events (a, w)).1 = false.
Proof.
  intros Hup Hev. revert a w Hup. unfold dispatchAll, scrolled.
  induction Hev as [|e events He Hev IH]; intros a w Hup; simpl; [auto|].
  destruct (dispatch_button_up e a w Hup He) as [Hup' Hcam].
  destruct (dispatch e (a, w)) as [a' w'] eqn:Hd. simpl in Hup', Hcam.
  destruct (IH a' w' Hup') as [IHc IHu]. rewrite IHc, IHu, Hcam.
  split; [|reflexivity]. destruct e; reflexivity.
Qed.

(** X13: The camera turns only in a drag with the right button: as long as the
    right button is up and is not pressed, no cursor motion, no other button,
    no key and no resize changes the camera; what the camera is after the
    events is what the scroll events alone make of it, and the button is
    still up. *)
Theorem camera_still_without_right_press (events : list InputEvent)
    (a : Assignment4) (w : World) :
  rightMouseDown a = false ->
  Forall (fun e => is_right_press e = false) events ->
  camera (dispatchAll events (a, w)).1 = scrolled events (camera a) /\
  rightMouseDown (dispatchAll events (a, w)).1 = false.
Proof. exact (dispatchAll_button_up events a w). Qed.

Lemma dispatchAll_split (events : list InputEvent) (a : Assignment4) (w : World) :
  (dispatchAll events (a, w)).2 = pollEvents (key_events events) w /\
  (mouseOldX (dispatchAll events (a, w)).1, mouseOldY (dispatchAll events (a, w)).1) =
    last_cursor events (mouseOldX a, mouseOldY a).
Proof.
  revert a w. unfold dispatchAll, pollEvents, last_cursor, key_events.
  induction events as [|e events IH]; intros a w; simpl; [auto|].
  destruct (dispatch_world e a w) as [Hw Hm].
  destruct (dispatch e (a, w)) as [a' w'] eqn:Hd. simpl in Hw, Hm.
  destruct (IH a' w') as [IHw IHm]. rewrite IHw, IHm, Hw, Hm.
  destruct e; split; reflexivity.
Qed.

(** X15: Mouse, scroll and resize events never reach the animation state, which
    is after the events what the key events alone make of it; and the cursor
    is tracked whether or not a button is down: the recorded position is that
    of the last cursor event. *)
Theorem events_split (events : list InputEvent) (a : Assignment4) (w : World) :
  (dispatchAll events (a, w)).2 = pollEvents (key_events events) w /\
  (mouseOldX (dispatchAll events (a, w)).1, mouseOldY (dispatchAll events (a, w)).1) =
    last_cursor events (mouseOldX a, mouseOldY a).
Proof. exact (dispatchAll_split events a w). Qed.

(** X14: A drag starts without a jump: when, after events during which the right
    button stayed up, the button is pressed and the cursor then moves to
    [(x, y)], the camera is incremented in theta by the vertical and then in
    phi by the horizontal distance from the last cursor position seen before
    the press, rounded to [float]. *)
Theorem drag_starts_at_last_cursor (events : list InputEvent) (mods : Z)
    (x y : double) (a : Assignment4) (w : World) :
  rightMouseDown a = false ->
  Forall (fun e => is_right_press e = false) events ->
  camera
    (dispatchAll
       (events ++ [EvMouseButton GLFW_MOUSE_BUTTON_RIGHT GLFW_PRESS mods;
                   EvCursorPos x y]) (a, w)).1 =
  incrementPhi
    (F32.round (F64.sub x (last_cursor events (mouseOldX a, mouseOldY a)).1))
    (incrementTheta
       (F32.round (F64.sub y (last_cursor events (mouseOldX a, mouseOldY a)).2))
       (scrolled events (camera a))).
Proof.
  intros Hup Hev.
  destruct (dispatchAll_button_up events a w Hup Hev) as [Hc _].
  destruct (dispatchAll_split events a w) as [_ Hm].
  unfold dispatchAll in *. rewrite fold_left_app.
  destruct (fold_left _ events (a, w)) as [a' w'] eqn:Hd.
  simpl in Hc, Hm. rewrite <- Hc, <- Hm. reflexivity.
Qed.

End CallbackProperties.

(** * The theorems at concrete inputs *)

#[local] Existing Instance RefLib.lib.
#[local] Existing Instance spliced.

Lemma updateLocation_position_witness :
  (exists p', updateLocation Demo.world Demo.child = Some p' /\
     orbitalAngle p' = orbitalAngle Demo.child /\
     position p' =
       vec3_add (position Demo.root)
         (vec3_scale (distanceFromParent Demo.child)
            (mkVec3 (sin (orbitalAngle Demo.child))
               (sin (orbitalAngle Demo.child) * sin (orbitalInclination Demo.child))%f32
               (cos (orbitalAngle Demo.child))))) /\
  (exists p', updateLocation Demo.world Demo.root = Some p' /\ position p' = vec3_zero).
Proof.
  split.
  - exact (proj1 (updateLocation_position Demo.world Demo.child) 0%nat Demo.root
             eq_refl eq_refl).
  - exact (proj2 (updateLocation_position Demo.world Demo.root) eq_refl).
Defined.

Lemma animate_axialAngle_witness :
  exists p', bodies Demo.after_animate !! 1%nat = Some p' /\
    axialAngle p' =
      (axialAngle Demo.child +
       rotationSpeed Demo.child * animationSpeed Demo.world *
       F32.round (F64.sub Demo.t1 (lastUpdateTime Demo.world)))%f32.
Proof.
  exact (animate_axialAngle Demo.t1 1 Demo.world Demo.after_animate Demo.child
           eq_refl eq_refl).
Defined.

Lemma speed_never_negative_witness :
  F32.leb F32.zero
    (animationSpeed
       (pollEvents
          [mkKeyEvent GLFW_KEY_UP 0 GLFW_PRESS 0; mkKeyEvent GLFW_KEY_DOWN 0 GLFW_PRESS 0;
           mkKeyEvent GLFW_KEY_DOWN 0 GLFW_PRESS 0] Demo.world)) = true.
Proof.
  apply (speed_never_negative _ Demo.world). reflexivity.
Defined.

Lemma generateSphere_deterministic_witness :
  (fun p' => (verts (cpuGeom p'), texCoords (cpuGeom p'))) <$>
    generateSphereWith uvInc 63 Demo.root =
  (fun p' => (verts (cpuGeom p'), texCoords (cpuGeom p'))) <$>
    generateSphereWith uvInc 63 Demo.child.
Proof.
  exact (proj1 (generateSphere_deterministic uvInc 63 Demo.root Demo.child) eq_refl).
Defined.

Lemma animate_mutates_only_motion_witness :
  (exists p', bodies Demo.after_animate !! 1%nat = Some p' /\
     verts (cpuGeom p') = verts (cpuGeom Demo.child) /\
     texCoords (cpuGeom p') = texCoords (cpuGeom Demo.child) /\
     rotationAxis p' = rotationAxis Demo.child /\
     same_frozen Demo.child p' /\ (1%nat <> 1%nat -> p' = Demo.child) /\
     (1%nat = 1%nat ->
      vertBuffer (gpuGeom p') = verts (cpuGeom Demo.child) /\
      texCoordBuffer (gpuGeom p') = texCoords (cpuGeom Demo.child))) /\
  (exists p', bodies Demo.after_quiet !! 2%nat = Some p' /\
     verts (cpuGeom p') = verts (cpuGeom Demo.child) /\
     texCoords (cpuGeom p') = texCoords (cpuGeom Demo.child) /\
     rotationAxis p' = rotationAxis Demo.child /\
     same_frozen Demo.child p').
Proof.
  split.
  - exact (proj1 animate_mutates_only_motion Demo.t1 1%nat Demo.world
             Demo.after_animate 1%nat Demo.child eq_refl eq_refl).
  - exact (proj2 animate_mutates_only_motion Demo.quiet Demo.world Demo.after_quiet
             2%nat Demo.child eq_refl eq_refl eq_refl).
Defined.

Lemma resetOrientation_keeps_position_witness :
  (position (resetOrientation Demo.child) = position Demo.child /\
   translationMatrix (resetOrientation Demo.child) = translationMatrix Demo.child) /\
  (exists p', bodies Demo.after_restart !! 1%nat = Some p' /\
     position p' = position Demo.child /\
     translationMatrix p' = translationMatrix Demo.child).
Proof.
  split.
  - pose proof (proj1 resetOrientation_keeps_position Demo.child) as (H1 & H2 & _).
    exact (conj H1 H2).
  - exact (proj2 resetOrientation_keeps_position Demo.restart Demo.paused
             Demo.after_restart 1%nat Demo.child eq_refl eq_refl eq_refl).
Defined.

Lemma demo_paused_well_formed : well_formed Demo.paused.
Proof.
  split; [|simpl; lia].
  intros i p j Hi Hj.
  destruct i as [|[|[|i]]]; simpl in Hi; try discriminate Hi;
    injection Hi as <-; simpl in Hj; try discriminate Hj;
    injection Hj as <-; simpl; eauto.
Defined.

Lemma pause_keeps_time_base_witness :
  lastUpdateTime Demo.after_restart = lastUpdateTime Demo.paused /\
  animationSpeed Demo.after_restart = animationSpeed Demo.paused /\
  only_reset Demo.paused Demo.after_restart /\
  exists (w2 : World) (p : Planet) (w3 : World) (p' : Planet),
    serviceRestart
      (pollEvents [mkKeyEvent GLFW_KEY_SPACE 0 GLFW_PRESS 0] Demo.after_restart) =
      Some w2 /\
    bodies w2 !! earth = Some p /\
    animate Demo.t3 earth w2 = Some w3 /\
    bodies w3 !! earth = Some p' /\
    axialAngle p' =
      (axialAngle p + rotationSpeed p * animationSpeed w2 *
       F32.round (F64.sub Demo.t3 (lastUpdateTime Demo.paused)))%f32 /\
    orbitalAngle p' =
      (orbitalAngle p + orbitalSpeed p * animationSpeed w2 *
       F32.round (F64.sub Demo.t3 (lastUpdateTime Demo.paused)))%f32.
Proof.
  destruct (pause_keeps_time_base [Demo.restart] Demo.paused Demo.after_restart)
    as (Hl & Hs & Ho & Hjump).
  - reflexivity.
  - constructor; [|constructor].
    constructor; [reflexivity|constructor].
  - reflexivity.
  - split; [exact Hl|]. split; [exact Hs|]. split; [exact Ho|].
    apply (Hjump [mkKeyEvent GLFW_KEY_SPACE 0 GLFW_PRESS 0] Demo.t3 earth).
    + exact demo_paused_well_formed.
    + exists Demo.child. reflexivity.
Defined.

#[local] Existing Instance RefCamera.lib.

Lemma demo2_well_formed : well_formed Demo2.world.
Proof.
  split; [|simpl; lia].
  apply main_init_parents_valid; reflexivity.
Defined.

Lemma run_keeps_mesh_ok_witness :
  ~ mesh_ok Demo2.bare /\
  length (bodies Demo2.after_uneven) = length (bodies Demo2.uneven) /\
  exists p', bodies Demo2.after_uneven !! earth = Some p' /\ mesh_ok p'.
Proof.
  split; [intros (H & _); discriminate H|].
  destruct (run_keeps_mesh_ok [Demo.quiet; Demo.restart] Demo2.uneven
              Demo2.after_uneven eq_refl) as [Hlen H].
  split; [exact Hlen|].
  apply (H earth Demo.child eq_refl). repeat split; reflexivity.
Defined.

Lemma run_leaves_background_witness :
  length (bodies Demo2.after_run) = length (bodies Demo2.world) /\
  forall j, (starBackground <= j)%nat ->
    bodies Demo2.after_run !! j = bodies Demo2.world !! j.
Proof.
  exact (run_leaves_background [Demo.quiet; Demo.restart] Demo2.world Demo2.after_run
           eq_refl).
Defined.

Lemma run_keeps_root_at_origin_witness :
  exists p', bodies Demo2.after_run !! sun = Some p' /\
    parent p' = None /\ position p' = vec3_zero.
Proof.
  exact (run_keeps_root_at_origin [Demo.quiet; Demo.restart] Demo2.world
           Demo2.after_run sun Demo.root eq_refl eq_refl eq_refl eq_refl).
Defined.

Lemma run_total_witness :
  exists w', run [Demo.quiet; Demo.restart; Demo2.arrows] Demo2.world = Some w' /\
    well_formed w'.
Proof.
  exact (run_total [Demo.quiet; Demo.restart; Demo2.arrows] Demo2.world
           demo2_well_formed).
Defined.

Lemma paused_frames_change_nothing_witness :
  run [Demo2.arrows; Demo2.arrows] Demo2.paused = Some Demo2.paused.
Proof.
  apply (paused_frames_change_nothing [Demo2.arrows; Demo2.arrows] Demo2.paused).
  - reflexivity.
  - reflexivity.
  - repeat constructor.
Defined.

Lemma restart_resets_all_three_witness :
  restartAnimation Demo2.after_restart_paused = false /\
  lastUpdateTime Demo2.after_restart_paused = lastUpdateTime Demo2.paused /\
  forall j p, bodies Demo2.paused !! j = Some p ->
    bodies Demo2.after_restart_paused !! j =
      Some (if decide (j < 3)%nat then resetOrientation p else p).
Proof.
  apply (restart_resets_all_three Demo.restart Demo2.paused
           Demo2.after_restart_paused).
  - constructor. split; reflexivity.
  - reflexivity.
  - reflexivity.
Defined.

Lemma restart_then_animate_witness :
  exists w' ps' pe' pm',
    frame Demo.restart Demo2.world = Some w' /\
    bodies w' !! sun = Some ps' /\ bodies w' !! earth = Some pe' /\
    bodies w' !! moon = Some pm' /\
    restartAnimation w' = false /\
    axialAngle ps' =
      (half_PI + rotationSpeed Demo.root *
                 animationSpeed (pollEvents (fi_events Demo.restart) Demo2.world) *
       F32.round (F64.sub (fi_t_sun Demo.restart) (lastUpdateTime Demo2.world)))%f32 /\
    orbitalAngle ps' =
      (half_PI + orbitalSpeed Demo.root *
                 animationSpeed (pollEvents (fi_events Demo.restart) Demo2.world) *
       F32.round (F64.sub (fi_t_sun Demo.restart) (lastUpdateTime Demo2.world)))%f32 /\
    axialAngle pe' =
      (half_PI + rotationSpeed Demo.child *
                 animationSpeed (pollEvents (fi_events Demo.restart) Demo2.world) *
       F32.round (F64.sub (fi_t_earth Demo.restart) (fi_t_sun Demo.restart)))%f32 /\
    orbitalAngle pe' =
      (half_PI + orbitalSpeed Demo.child *
                 animationSpeed (pollEvents (fi_events Demo.restart) Demo2.world) *
       F32.round (F64.sub (fi_t_earth Demo.restart) (fi_t_sun Demo.restart)))%f32 /\
    axialAngle pm' =
      (half_PI + rotationSpeed Demo2.moon *
                 animationSpeed (pollEvents (fi_events Demo.restart) Demo2.world) *
       F32.round (F64.sub (fi_t_moon Demo.restart) (fi_t_earth Demo.restart)))%f32 /\
    orbitalAngle pm' =
      (half_PI + orbitalSpeed Demo2.moon *
                 animationSpeed (pollEvents (fi_events Demo.restart) Demo2.world) *
       F32.round (F64.sub (fi_t_moon Demo.restart) (fi_t_earth Demo.restart)))%f32.
Proof.
  apply (restart_then_animate Demo.restart Demo2.world Demo.root Demo.child Demo2.moon).
  - exact demo2_well_formed.
  - constructor. split; reflexivity.
  - reflexivity.
  - reflexivity.
  - reflexivity.
  - reflexivity.
Defined.

Lemma frame_positions_top_down_witness :
  exists ps' pe' pm',
    bodies Demo2.after_quiet !! sun = Some ps' /\
    bodies Demo2.after_quiet !! earth = Some pe' /\
    bodies Demo2.after_quiet !! moon = Some pm' /\
    position ps' = vec3_zero /\
    position pe' = vec3_add (position ps') (orbit_offset pe') /\
    position pm' = vec3_add (position pe') (orbit_offset pm').
Proof.
  exact (frame_positions_top_down Demo.quiet Demo2.world Demo2.after_quiet
           Demo.root Demo.child Demo2.moon
           eq_refl eq_refl eq_refl eq_refl eq_refl eq_refl eq_refl eq_refl).
Defined.

Lemma zero_speed_freezes_angles_witness :
  exists p', bodies Demo2.after_stopped !! 1%nat = Some p' /\
    axialAngle p' = axialAngle Demo.child /\
    orbitalAngle p' = orbitalAngle Demo.child /\
    lastUpdateTime Demo2.after_stopped = Demo.t1.
Proof.
  exact (zero_speed_freezes_angles Demo.t1 1%nat Demo2.stopped Demo2.after_stopped
           Demo.child false eq_refl I I I I I eq_refl eq_refl).
Defined.

Lemma draw_after_animate_witness :
  exists p', bodies Demo2.after_animate !! 1%nat = Some p' /\
    draw p' =
      (match parent Demo.child with
       | None => modelMatrix Demo.child
       | Some _ => translate (modelMatrix Demo.child) (position p')
       end,
       rotate (modelMatrix Demo.child) (axialAngle p') (rotationAxis Demo.child),
       rotate (modelMatrix Demo.child) (- axialAngle p')%f32 (rotationAxis Demo.child),
       length (verts (cpuGeom Demo.child))).
Proof.
  exact (draw_after_animate Demo.t1 1%nat Demo2.world Demo2.after_animate Demo.child
           eq_refl eq_refl).
Defined.

Lemma sphere_grid_reached : is_Some (sphere_grid 63 uvInc).
Proof. eexists. vm_compute. reflexivity. Defined.

Lemma Planet_new_consistent_witness :
  exists p,
    Planet_new 63 Demo2.world earthRadius "textures/2k_earth_daymap.jpg"
      earthRotationSpeed earthOrbitSpeed F32.zero F32.zero (Some sun) earthToSun
      = Some p /\
    resetOrientation p = p /\
    updateLocation Demo2.world p = Some p /\
    updateTranslationMatrix p = p /\
    updateNormals p = p /\
    mesh_ok p /\
    radius p = (earthRadius * modelScale)%f32 /\
    distanceFromParent p = (earthToSun * modelScale)%f32.
Proof.
  apply (Planet_new_consistent 63 Demo2.world).
  - exact sphere_grid_reached.
  - intros j [= <-]. eexists. reflexivity.
Defined.

Lemma camera_still_without_right_press_witness :
  camera (dispatchAll Demo2.mouse_events (Demo2.callbacks, Demo2.world)).1 =
    scrolled Demo2.mouse_events (camera Demo2.callbacks) /\
  rightMouseDown (dispatchAll Demo2.mouse_events (Demo2.callbacks, Demo2.world)).1 =
    false.
Proof.
  apply (camera_still_without_right_press Demo2.mouse_events Demo2.callbacks
           Demo2.world).
  - reflexivity.
  - repeat constructor.
Defined.

Lemma drag_starts_at_last_cursor_witness :
  camera
    (dispatchAll
       (Demo2.mouse_events ++
        [EvMouseButton GLFW_MOUSE_BUTTON_RIGHT GLFW_PRESS 0;
         EvCursorPos (F64.of_Z 35) (F64.of_Z 38)])
       (Demo2.callbacks, Demo2.world)).1 =
  incrementPhi
    (F32.round
       (F64.sub (F64.of_Z 35)
          (last_cursor Demo2.mouse_events
             (mouseOldX Demo2.callbacks, mouseOldY Demo2.callbacks)).1))
    (incrementTheta
       (F32.round
          (F64.sub (F64.of_Z 38)
             (last_cursor Demo2.mouse_events
                (mouseOldX Demo2.callbacks, mouseOldY Demo2.callbacks)).2))
       (scrolled Demo2.mouse_events (camera Demo2.callbacks))).
Proof.
  apply (drag_starts_at_last_cursor Demo2.mouse_events 0 (F64.of_Z 35) (F64.of_Z 38)
           Demo2.callbacks Demo2.world).
  - reflexivity.
  - repeat constructor.
Defined.

Lemma main_loop_runs_witness :
  exists w0 w,
    main_init 63 (F64.of_Z 10) = Some w0 /\
    run [Demo.quiet; Demo.restart] w0 = Some w /\
    length (bodies w) = 4%nat /\ well_formed w /\ Forall mesh_ok (bodies w).
Proof.
  exact (main_loop_runs 63 (F64.of_Z 10) [Demo.quiet; Demo.restart]
           sphere_grid_reached).
Defined.
